(** * streamAPI: ChainedCondition, divide_in_chunk and the Stream operations

    A shallow embedding of [streamAPI/stream/streamHelper.py] and of
    [utility/utils.py], with the properties the specification states about
    them.

    Python objects live in a store and are named by references; a method
    is a computation over the store that either returns a value or raises.
    The callables a caller hands in (predicates, transforms) are functions
    that thread a caller-owned world [W], so that whether and in which
    order they are called is visible in the result.  The callables cannot
    reach the store of [ChainedCondition] objects and they return
    normally. *)

From Stdlib Require Import ZArith List Ascii String Lia Decimal DecimalString.
From stdpp Require Import base option list.
From Equations Require Import Equations.
Import ListNotations.

Local Open Scope string_scope.
Local Open Scope list_scope.

(** ** Exceptions *)

(** [PipelineNOTClosed] and [AttributeError] are raised by the source.
    [PipelineAlreadyClosed] and [EmptyValueAccess] are the specification's
    names for the exceptions of modules that are not among the sources.
    [ValueError] is what [range] raises on a zero step.  [DanglingRef] is
    not a Python exception: it is the answer of the store to a reference
    that was never allocated. *)
Inductive exn : Type :=
| PipelineNOTClosed (msg : string)
| PipelineAlreadyClosed
| AttributeError (msg : string)
| EmptyValueAccess
| ValueError (msg : string)
| DanglingRef.

(** The error kind the specification calls NoConditionDefined is the
    [AttributeError] that [otherwise] raises. *)
Definition NoConditionDefined : exn :=
  AttributeError "No 'if' condition added.".

(** The error kind the specification calls PipelineNotClosed, with the
    message [apply] gives it. *)
Definition PipelineNotClosed : exn :=
  PipelineNOTClosed "close operation such as else_ or done has not been invoked.".

(** ** Optional *)

(** Modelled from the spec: [streamAPI/stream/optional.py] ([Optional],
    [EMPTY]) is not among the sources.  An Optional either holds exactly
    one value or is the distinguished empty instance; [get] returns the
    wrapped value and fails with EmptyValueAccess on the empty instance. *)
Inductive Optional (T : Type) : Type :=
| EMPTY
| Optional_of (data : T).

Arguments EMPTY {T}.
Arguments Optional_of {T} data.

Definition is_EMPTY {T} (o : Optional T) : bool :=
  match o with EMPTY => true | Optional_of _ => false end.

Definition get {T} (o : Optional T) : exn + T :=
  match o with
  | EMPTY => inl EmptyValueAccess
  | Optional_of v => inr v
  end.

(** ** ChainedCondition *)

Section ChainedCondition.

Context {X W : Type}.

(** [Filter] and [Function] of [streamAPI.utility.Types]: callables that
    may read and change the caller's world. *)
Definition Filter : Type := X -> W -> bool * W.
Definition Function : Type := X -> W -> X * W.

Record _IfThen : Type := IfThen
  { _if : Filter;
    _func : Function }.

(** The fields [__init__] sets.  The deque is only ever appended to on
    the right and iterated from the left: a list. *)
Record ChainedCondition : Type := mkChainedCondition
  { _conditions : list _IfThen;
    _closed : bool;
    _name : option string;
    _else_called : bool }.

Definition ref : Type := nat.

Record state : Type := mkState
  { heap : list ChainedCondition;
    world : W }.

(** Computations: a result or an exception, and the state afterwards. *)
Definition M (A : Type) : Type := state -> (exn + A) * state.

Definition ret {A} (a : A) : M A := fun s => (inr a, s).

Definition raise {A} (e : exn) : M A := fun s => (inl e, s).

Definition bind {A B} (m : M A) (k : A -> M B) : M B :=
  fun s =>
    match m s with
    | (inr a, s') => k a s'
    | (inl e, s') => (inl e, s')
    end.

Notation "x <- m ;; k" := (bind m (fun x => k))
  (at level 100, m at next level, right associativity).
Notation "m ;;; k" := (bind m (fun _ => k))
  (at level 100, right associativity).

(** Calling one of the caller's callables. *)
Definition call {A} (f : W -> A * W) : M A :=
  fun s => let (a, w) := f (world s) in (inr a, mkState (heap s) w).

Definition lift {A} (r : exn + A) : M A :=
  match r with inl e => raise e | inr a => ret a end.

Definition load (self : ref) : M ChainedCondition :=
  fun s =>
    match heap s !! self with
    | Some o => (inr o, s)
    | None => (inl DanglingRef, s)
    end.

Definition store (self : ref) (o : ChainedCondition) : M unit :=
  fun s => (inr tt, mkState (<[self := o]> (heap s)) (world s)).

(** [ChainedCondition(name)]: a new object, no condition, not closed. *)
Definition __init__ (name : option string) : M ref :=
  fun s =>
    (inr (length (heap s)),
     mkState (heap s ++ [mkChainedCondition [] false name false]) (world s)).

(** The property [closed] and its setter. *)
Definition closed (self : ref) : M bool :=
  o <- load self ;; ret (_closed o).

Definition set_closed (self : ref) (b : bool) : M unit :=
  o <- load self ;;
  store self (mkChainedCondition (_conditions o) b (_name o) (_else_called o)).

(** Modelled from the spec: the decorators [check_pipeline] and
    [close_pipeline] of [streamAPI/stream/decos.py] are not among the
    sources.  [check_pipeline] is the guard of an operation that
    requires OPEN and fails with PipelineAlreadyClosed if CLOSED.
    [close_pipeline] is the guard of an operation that requires OPEN and
    transitions to CLOSED: the transition follows the body, since the
    body of [otherwise] calls [if_then], which requires OPEN, and a body
    that raises does not come to it. *)
Definition check_pipeline {A} (method : ref -> M A) (self : ref) : M A :=
  c <- closed self ;;
  if c then raise PipelineAlreadyClosed else method self.

Definition close_pipeline {A} (method : ref -> M A) (self : ref) : M A :=
  c <- closed self ;;
  if c then raise PipelineAlreadyClosed
  else out <- method self ;; set_closed self true ;;; ret out.

(** Modelled from the spec: [always_true] of [streamAPI/utility/utils.py]
    is not among the sources; it is the predicate of the always-matching
    branch, [_always_true] of [utility/utils.py]: it returns [True]. *)
Definition always_true : Filter := fun _ w => (true, w).

Definition append_condition (self : ref) (c : _IfThen) : M unit :=
  o <- load self ;;
  store self (mkChainedCondition (_conditions o ++ [c]) (_closed o)
                                 (_name o) (_else_called o)).

Definition if_then (self : ref) (predicate : Filter) (func : Function) : M ref :=
  check_pipeline
    (fun self => append_condition self (IfThen predicate func) ;;; ret self)
    self.

Definition otherwise (self : ref) (func : Function) : M ref :=
  close_pipeline
    (fun self =>
       o <- load self ;;
       match _conditions o with
       | [] => raise (AttributeError "No 'if' condition added.")
       | _ :: _ => if_then self always_true func
       end)
    self.

Definition done (self : ref) : M ref :=
  close_pipeline (fun self => ret self) self.

(** The class method [if_else]. *)
Definition if_else (predicate : Filter) (if_ else_ : Function) : M ref :=
  r <- __init__ None ;;
  r1 <- if_then r predicate if_ ;;
  otherwise r1 else_.

(** [_IfThen.apply]: the predicate first, the transform only when the
    predicate holds. *)
Definition IfThen_apply (c : _IfThen) (e : X) : M (Optional X) :=
  b <- call (_if c e) ;;
  if b then y <- call (_func c e) ;; ret (Optional_of y)
  else ret EMPTY.

(** The [for ... else] of [ChainedCondition.apply]. *)
Fixpoint apply_loop (conditions : list _IfThen) (e : X) : M X :=
  match conditions with
  | [] => ret e
  | condition :: rest =>
      y <- IfThen_apply condition e ;;
      if negb (is_EMPTY y) then lift (get y)
      else apply_loop rest e
  end.

Definition apply (self : ref) (e : X) : M X :=
  o <- load self ;;
  if negb (_closed o) then
    raise (PipelineNOTClosed
             "close operation such as else_ or done has not been invoked.")
  else apply_loop (_conditions o) e.

Definition decimal (n : nat) : string :=
  NilEmpty.string_of_uint (Nat.to_uint n).

Definition default_name_of (o : ChainedCondition) : string :=
  let size := length (_conditions o) in
  if Nat.eqb size 0 then "ChainedCondition has not defined any condition"
  else if Nat.eqb size 1 then "ChainedCondition defines 'if' condition"
  else if _else_called o then
    if Nat.eqb size 2 then "ChainedCondition defines 'if' and 'else' condition"
    else "ChainedCondition defines 'if' then " ++ decimal (size - 2)
         ++ " elif condition" ++ (if Nat.ltb 3 size then "s" else "")
         ++ " and 'else' condition"
  else "ChainedCondition defines 'if' then " ++ decimal (size - 1)
       ++ " elif condition" ++ (if Nat.ltb 2 size then "s" else "").

Definition default_name (self : ref) : M string :=
  o <- load self ;; ret (default_name_of o).

(** [__str__]: [self._name or self.default_name()]; [None] and the empty
    string are the falsy names. *)
Definition __str__ (self : ref) : M string :=
  o <- load self ;;
  match _name o with
  | Some (String a n) => ret (String a n)
  | _ => default_name self
  end.

(** The world after the predicates of [conditions] were called on [e] in
    order, when every one of them returned false; [None] as soon as one
    returns true. *)
Fixpoint rejected (conditions : list _IfThen) (e : X) (w : W) : option W :=
  match conditions with
  | [] => Some w
  | c :: rest =>
      let (b, w1) := _if c e w in
      if b then None else rejected rest e w1
  end.

(** A caller applying one instance to each element of a sequence, in
    order. *)
Fixpoint apply_each (self : ref) (es : list X) : M (list X) :=
  match es with
  | [] => ret []
  | e :: rest =>
      y <- apply self e ;;
      ys <- apply_each self rest ;;
      ret (y :: ys)
  end.

(** What the specification says [if_else] is a convenience for: a new
    instance, [if_then] called on it, then [otherwise] called on it. *)
Definition if_else_spec (predicate : Filter) (if_transform else_transform : Function)
  : M ref :=
  r <- __init__ None ;;
  if_then r predicate if_transform ;;;
  otherwise r else_transform ;;;
  ret r.

(** No object of the store has [_else_called] set. *)
Definition never_else (s : state) : Prop :=
  Forall (fun o => _else_called o = false) (heap s).

(** A caller chaining [if_then] once per branch, each call on what the
    call before returned: [c.if_then(p1, f1).if_then(p2, f2)...]. *)
Fixpoint if_then_each (self : ref) (branches : list _IfThen) : M ref :=
  match branches with
  | [] => ret self
  | c :: rest =>
      r <- if_then self (_if c) (_func c) ;;
      if_then_each r rest
  end.

(** Callables that leave the caller's world alone. *)
Definition pure_filter (p : X -> bool) : Filter := fun x w => (p x, w).

Definition pure_function (f : X -> X) : Function := fun x w => (f x, w).

Definition pure_branch (pf : (X -> bool) * (X -> X)) : _IfThen :=
  IfThen (pure_filter (fst pf)) (pure_function (snd pf)).

(** The function of the class docstring:
    [if predicate1(x): return f1(x) elif predicate2(x): return f2(x) ...],
    with [x] returned when no predicate holds. *)
Fixpoint if_elif (branches : list ((X -> bool) * (X -> X))) (x : X) : X :=
  match branches with
  | [] => x
  | (p, f) :: rest => if p x then f x else if_elif rest x
  end.

End ChainedCondition.

(** ** utility/utils.py: divide_in_chunk *)

Section Utils.

Context {T : Type}.

Local Open Scope Z_scope.

(** [range(start, stop, step)]: a zero step raises; otherwise the length
    is computed first and item [k] is [start + k * step]. *)
Definition range_length (start stop step : Z) : Z :=
  let lo := if 0 <? step then start else stop in
  let hi := if 0 <? step then stop else start in
  let step := if 0 <? step then step else - step in
  if hi <=? lo then 0 else (hi - lo - 1) / step + 1.

Definition range (start stop step : Z) : exn + list Z :=
  if step =? 0 then inl (ValueError "range() arg 3 must not be zero")
  else inr (map (fun k => start + Z.of_nat k * step)
                (seq 0 (Z.to_nat (range_length start stop step)))).

(** [docs[i:j]]: a negative index counts from the end, and both indices
    are clipped to the sequence. *)
Definition adjust_index (len i : Z) : Z :=
  if i <? 0 then Z.max 0 (i + len) else Z.min i len.

Definition slice (docs : list T) (i j : Z) : list T :=
  let len := Z.of_nat (length docs) in
  let start := adjust_index len i in
  let stop := adjust_index len j in
  firstn (Z.to_nat (stop - start)) (skipn (Z.to_nat start) docs).

(** The chunks the generator yields, in order, or the exception that
    ends it. *)
Definition divide_in_chunk (docs : list T) (chunk_size : Z)
  : exn + list (list T) :=
  if Z.of_nat (length docs) <=? chunk_size then inr [docs]
  else
    match range 0 (Z.of_nat (length docs)) chunk_size with
    | inl e => inl e
    | inr indices =>
        inr (map (fun i => slice docs i (i + chunk_size)) indices)
    end.

End Utils.

(** The least integer that is at least [a / b], for [b] positive. *)
Definition ceil_div (a b : Z) : Z := ((a + b - 1) / b)%Z.

(** ** Stream: reduce and zip_longest *)

Section Stream.

Context {X : Type}.

(** Modelled from the spec: the class [Stream] of
    [streamAPI/stream/stream.py] is not among the sources.  [reduce] is
    a left fold over the elements in source order; with an
    [initial_point] the fold is seeded with it, without one the first
    element seeds the fold, and an empty source gives the empty
    Optional. *)
Fixpoint reduce_from (bi_func : X -> X -> X) (acc : X) (source : list X) : X :=
  match source with
  | [] => acc
  | e :: rest => reduce_from bi_func (bi_func acc e) rest
  end.

Definition reduce (source : list X) (bi_func : X -> X -> X)
           (initial_point : option X) : Optional X :=
  match initial_point with
  | Some v => Optional_of (reduce_from bi_func v source)
  | None =>
      match source with
      | [] => EMPTY
      | first :: rest => Optional_of (reduce_from bi_func first rest)
      end
  end.

Definition exhausted (s : list X) : bool :=
  match s with [] => true | _ :: _ => false end.

Definition next_or (fillvalue : X) (s : list X) : X :=
  match s with [] => fillvalue | x :: _ => x end.

Definition longest (seqs : list (list X)) : nat :=
  list_max (map (@length X) seqs).

Lemma longest_exhausted (seqs : list (list X)) :
  forallb exhausted seqs = true -> longest seqs = 0%nat.
Proof.
  unfold longest.
  induction seqs as [|s seqs IH]; simpl; [reflexivity|].
  destruct s; simpl; [|discriminate].
  exact IH.
Qed.

Lemma longest_tail (seqs : list (list X)) :
  longest (map (@tail X) seqs) = Nat.pred (longest seqs).
Proof.
  unfold longest.
  induction seqs as [|s seqs IH]; simpl; [reflexivity|].
  rewrite IH. destruct s; simpl; lia.
Qed.

Lemma longest_positive (seqs : list (list X)) :
  forallb exhausted seqs = false -> (0 < longest seqs)%nat.
Proof.
  unfold longest.
  induction seqs as [|s seqs IH]; simpl; [discriminate|].
  destruct s; simpl; [exact IH | lia].
Qed.

(** A value together with the fact that it is the value of [x]: what a
    branch on [x] may use on either side. *)
Definition inspect {A : Type} (x : A) : {y : A | x = y} :=
  exist _ x eq_refl.

(** Modelled from the spec: [zip_longest] of the absent class [Stream].
    One tuple is produced per position for as long as some sequence has
    an element left; a sequence that has run out contributes
    [fillvalue]. *)
Equations? zip_longest_rows (fillvalue : X) (seqs : list (list X))
  : list (list X) by wf (longest seqs) lt :=
  zip_longest_rows fillvalue seqs with inspect (forallb exhausted seqs) => {
    | exist _ true _ := [];
    | exist _ false running :=
        map (next_or fillvalue) seqs
          :: zip_longest_rows fillvalue (map (@tail X) seqs) }.
Proof.
  rewrite longest_tail.
  pose proof (longest_positive seqs running). lia.
Qed.

(** The field order: the Stream's own element first when [after] holds,
    last otherwise; the other sequences in argument order. *)
Definition zip_longest (self : list X) (others : list (list X))
           (after : bool) (fillvalue : X) : list (list X) :=
  zip_longest_rows fillvalue
    (if after then self :: others else others ++ [self]).

(** The element a sequence contributes at a position: its own, or
    [fillvalue] once it is exhausted. *)
Definition field (fillvalue : X) (i : nat) (s : list X) : X :=
  match nth_error s i with
  | Some x => x
  | None => fillvalue
  end.

End Stream.

(** ** Stream: batch *)

Section StreamBatch.

Context {X : Type}.

(** Modelled from the spec: [batch] of the absent class [Stream]
    ([streamAPI/stream/stream.py]; the [divide_in_chunk] it would use is
    that of [streamAPI/utility/utils.py], absent as well).  For [n] of at
    least 1, consecutive elements are grouped into tuples of [n] in source
    order, for as long as the source has an element left; the final group
    holds what is left, which may be fewer than [n]; no element is
    dropped.  The spec gives [batch] no meaning for [n] of 0: no group is
    produced there. *)
Equations? batch (n : nat) (source : list X) : list (list X)
  by wf (length source) lt :=
  batch 0 _ := [];
  batch (S k) [] := [];
  batch (S k) (x :: rest) :=
    firstn (S k) (x :: rest) :: batch (S k) (skipn (S k) (x :: rest)).
Proof.
  rewrite length_skipn. lia.
Qed.

End StreamBatch.

(** ** utility/utils.py: get_file_name, filter_transform, date_generator *)

(** What these functions raise.  [IndexError] is that of a subscript out
    of range, [OverflowError] that of [date] and [timedelta] arithmetic
    leaving their ranges, [TypeError] that of a call whose arguments do
    not fit the signature of the function called. *)
Inductive utils_exn : Type :=
| IndexError
| AssertionError
| OverflowError
| VarArgPresent (msg : string)
| TypeError (msg : string).

(** [s.split(sep)] for a separator of one character: the pieces between
    the separators, one more than there are separators. *)
Fixpoint split (sep : ascii) (s : string) : list string :=
  match s with
  | EmptyString => [EmptyString]
  | String ch rest =>
      if Ascii.eqb ch sep then EmptyString :: split sep rest
      else
        match split sep rest with
        | [] => [String ch EmptyString]
        | piece :: pieces => String ch piece :: pieces
        end
  end.

(** [l[i]]: a negative subscript counts from the end; out of range it
    raises. *)
Definition item {A : Type} (l : list A) (i : Z) : utils_exn + A :=
  let len := Z.of_nat (length l) in
  let j := if (i <? 0)%Z then (i + len)%Z else i in
  if ((0 <=? j) && (j <? len))%Z then
    match nth_error l (Z.to_nat j) with
    | Some x => inr x
    | None => inl IndexError
    end
  else inl IndexError.

Definition get_file_name (file_name : string) (at_ : Z) : utils_exn + string :=
  match item (split "/" file_name) at_ with
  | inl e => inl e
  | inr component => item (split "." component) 0
  end.

(** Whether a character occurs in a string, and how often. *)
Fixpoint occurs (ch : ascii) (s : string) : bool :=
  match s with
  | EmptyString => false
  | String c rest => Ascii.eqb c ch || occurs ch rest
  end.

Fixpoint count_char (ch : ascii) (s : string) : nat :=
  match s with
  | EmptyString => 0
  | String c rest => (if Ascii.eqb c ch then 1 else 0) + count_char ch rest
  end.

Section FilterTransform.

Context {A B W : Type}.

(** [filter_transform] returns [map(transform, filter(condition,
    data_stream))], two lazy iterators: nothing is called until an item is
    asked for.  The state of the iterators is what is left of
    [data_stream].

    [next] on the filter: elements are taken until [condition] holds for
    one. *)
Fixpoint filter_next (condition : A -> W -> bool * W) (data_stream : list A)
         (w : W) : option (A * list A) * W :=
  match data_stream with
  | [] => (None, w)
  | x :: rest =>
      let (b, w1) := condition x w in
      if b then (Some (x, rest), w1) else filter_next condition rest w1
  end.

(** [next] on the map over the filter. *)
Definition map_next (transform : A -> W -> B * W)
           (condition : A -> W -> bool * W) (data_stream : list A) (w : W)
  : option (B * list A) * W :=
  match filter_next condition data_stream w with
  | (None, w1) => (None, w1)
  | (Some (x, rest), w1) =>
      let (y, w2) := transform x w1 in (Some (y, rest), w2)
  end.

Lemma filter_next_shorter (condition : A -> W -> bool * W)
      (data_stream : list A) (w : W) x rest w1 :
  filter_next condition data_stream w = (Some (x, rest), w1) ->
  (length rest < length data_stream)%nat.
Proof.
  revert w. induction data_stream as [|x0 ds IH]; intros w Hnext; simpl in *.
  - discriminate.
  - destruct (condition x0 w) as [b w0]. destruct b.
    + injection Hnext as _ <- _. lia.
    + specialize (IH _ Hnext). lia.
Qed.

Lemma map_next_shorter (transform : A -> W -> B * W)
      (condition : A -> W -> bool * W) (data_stream : list A) (w : W)
      y rest w1 :
  map_next transform condition data_stream w = (Some (y, rest), w1) ->
  (length rest < length data_stream)%nat.
Proof.
  unfold map_next. intros Hnext.
  destruct (filter_next condition data_stream w) as [[[x rest0]|] w0] eqn:Hf;
    [|discriminate].
  destruct (transform x w0) as [y0 w2]. injection Hnext as _ <- _.
  eapply filter_next_shorter. exact Hf.
Qed.

(** A caller consuming [filter_transform(data_stream, condition,
    transform)] to its end, as [tuple] or [list] do: the items in the
    order they come, and the world afterwards. *)
Equations? filter_transform (data_stream : list A)
  (condition : A -> W -> bool * W) (transform : A -> W -> B * W) (w : W)
  : list B * W by wf (length data_stream) lt :=
  filter_transform data_stream condition transform w
    with inspect (map_next transform condition data_stream w) => {
    | exist _ (None, w1) _ := ([], w1);
    | exist _ (Some (y, rest), w1) Hnext :=
        (y :: fst (filter_transform rest condition transform w1),
         snd (filter_transform rest condition transform w1)) }.
Proof.
  all: eapply map_next_shorter; exact Hnext.
Qed.

(** The loop that calls [condition] on each element in turn and
    [transform] right after it on an element that passes. *)
Fixpoint filter_transform_loop (data_stream : list A)
         (condition : A -> W -> bool * W) (transform : A -> W -> B * W)
         (w : W) : list B * W :=
  match data_stream with
  | [] => ([], w)
  | x :: rest =>
      let (b, w1) := condition x w in
      if b then
        let (y, w2) := transform x w1 in
        let (ys, w3) := filter_transform_loop rest condition transform w2 in
        (y :: ys, w3)
      else filter_transform_loop rest condition transform w1
  end.

End FilterTransform.

(** A [date] is represented by its ordinal ([date.toordinal()]), on which
    comparing dates is comparing integers and adding [timedelta(days=k)] is
    adding [k]; [date.min] is 1 and [date.max] is 3652059, and a sum
    outside them raises.  [as_date] returns a [date] as it is: the
    arguments here are dates already. *)
Definition date_min : Z := 1.
Definition date_max : Z := 3652059.

Definition date_add (d days : Z) : utils_exn + Z :=
  if ((date_min <=? d + days) && (d + days <=? date_max))%Z
  then inr (d + days)%Z
  else inl OverflowError.

(** [timedelta(days=interval)]: at most 999999999 days either way. *)
Definition timedelta (days : Z) : utils_exn + Z :=
  if ((-999999999 <=? days) && (days <=? 999999999))%Z
  then inr days
  else inl OverflowError.

(** How a generator that was asked for all its items ended: by returning,
    by raising, or not within the number of steps it was given. *)
Inductive outcome : Type :=
| Finished
| Raised (e : utils_exn)
| Unfinished.

(** The [while] loop of [date_generator]; [fuel] bounds the number of
    times its condition is evaluated.  The dates yielded so far come with
    the outcome. *)
Fixpoint date_loop (fuel : nat) (start_date end_date td : Z)
  : list Z * outcome :=
  match fuel with
  | O => ([], Unfinished)
  | S fuel' =>
      if (start_date <=? end_date)%Z then
        match date_add start_date td with
        | inl e => ([start_date], Raised e)
        | inr next =>
            let (dates, o) := date_loop fuel' next end_date td in
            (start_date :: dates, o)
        end
      else ([], Finished)
  end.

Definition date_generator (fuel : nat) (start_date end_date : Z)
           (include_end : bool) (interval : Z) : list Z * outcome :=
  let checked : utils_exn + Z :=
    if include_end then
      if (start_date <=? end_date)%Z then inr end_date
      else inl AssertionError
    else
      if (start_date <? end_date)%Z then date_add end_date (-1)
      else inl AssertionError in
  match checked with
  | inl e => ([], Raised e)
  | inr end_date =>
      match timedelta interval with
      | inl e => ([], Raised e)
      | inr td => date_loop fuel start_date end_date td
      end
  end.

(** ** utility/utils.py: _same_name_as_constructor *)

Section SameNameAsConstructor.

Context {V : Type}.

(** A [dict] with string keys: the items in insertion order, one per
    key.  Storing under a key that is present replaces the value where it
    stands; under a new key it adds an item at the end. *)
Definition dict : Type := list (string * V).

Fixpoint dict_get (d : dict) (k : string) : option V :=
  match d with
  | [] => None
  | (k', v) :: rest => if String.eqb k' k then Some v else dict_get rest k
  end.

Fixpoint dict_set (d : dict) (k : string) (v : V) : dict :=
  match d with
  | [] => [(k, v)]
  | (k', v') :: rest =>
      if String.eqb k' k then (k', v) :: rest
      else (k', v') :: dict_set rest k v
  end.

(** [d.update(pairs)]: the pairs stored one after the other. *)
Definition dict_update (d : dict) (pairs : list (string * V)) : dict :=
  fold_left (fun d kv => dict_set d (fst kv) (snd kv)) pairs d.

(** The fields of [inspect.FullArgSpec] that are read. *)
Record FullArgSpec : Type := mkFullArgSpec
  { args : list string;
    varargs : option string;
    defaults : option (list V);
    kwonlydefaults : option dict }.

(** [l[i:]]. *)
Definition slice_from {T : Type} (l : list T) (i : Z) : list T :=
  slice l i (Z.of_nat (length l)).

(** [_same_name_as_constructor(ins, *args, **kwargs)], called with [ins]
    in the first position, as [constructor_setter] calls it.  The first
    parameter is named [ins]: a keyword argument of that name is a second
    value for it, and the call raises TypeError before the body runs. *)
Definition _same_name_as_constructor (ins : FullArgSpec) (args_ : list V)
           (kwargs : dict) : utils_exn + dict :=
  match dict_get kwargs "ins" with
  | Some _ =>
      inl (TypeError
             "_same_name_as_constructor() got multiple values for argument 'ins'")
  | None =>
      match varargs ins with
      | Some _ => inl (VarArgPresent "variable argument is present.")
      | None =>
          let pos_args_names := args ins in
          let obj_dict : dict := [] in
          let obj_dict :=
            dict_update obj_dict
              (combine (slice pos_args_names 1 (Z.of_nat (length args_) + 1))
                       args_) in
          let obj_dict :=
            match defaults ins with
            | Some ds =>
                let key_args_names :=
                  slice_from (args ins) (- Z.of_nat (length ds)) in
                dict_update obj_dict (combine key_args_names ds)
            | None => obj_dict
            end in
          let obj_dict :=
            match kwonlydefaults ins with
            | Some kwonly => dict_update obj_dict kwonly
            | None => obj_dict
            end in
          inr (dict_update obj_dict kwargs)
      end
  end.

(** The first of two lookups that finds something. *)
Definition or_else (first second : option V) : option V :=
  match first with
  | Some v => Some v
  | None => second
  end.

(** The value of the last pair with key [k]. *)
Definition last_value (pairs : list (string * V)) (k : string) : option V :=
  option_map snd (find (fun kv => String.eqb (fst kv) k) (rev pairs)).

End SameNameAsConstructor.

(** ** The conditions of [test_conditional1] and [test_conditional2]

    The elements are integers and the world is the log of the callables
    that were called: predicate [k] logs [k], transform [k] logs
    [10 + k]. *)

Definition at_most (k : nat) (bound : Z) : @Filter Z (list nat) :=
  fun x log => ((x <=? bound)%Z, log ++ [k]).

Definition always (k : nat) (value : Z) : @Function Z (list nat) :=
  fun _ log => (value, log ++ [10 + k]%nat).

Definition three_branches : list (@_IfThen Z (list nat)) :=
  [IfThen (at_most 1 10) (always 1 10);
   IfThen (at_most 2 20) (always 2 20);
   IfThen (at_most 3 30) (always 3 30)].

Definition open_conditions : @ChainedCondition Z (list nat) :=
  mkChainedCondition three_branches false None false.

Definition done_conditions : @ChainedCondition Z (list nat) :=
  mkChainedCondition three_branches true None false.

(** The three branches closed by [otherwise(lambda x: -1)], as in
    [test_conditional2], and the same branches with callables that leave
    the world alone, closed by [done()]. *)
Definition otherwise_conditions : @ChainedCondition Z (list nat) :=
  mkChainedCondition (three_branches ++ [IfThen always_true (always 4 (-1))])
                     true None false.

Definition pure_branches : list ((Z -> bool) * (Z -> Z)) :=
  [(fun x => (x <=? 10)%Z, fun _ => 10%Z);
   (fun x => (x <=? 20)%Z, fun _ => 20%Z);
   (fun x => (x <=? 30)%Z, fun _ => 30%Z)].

Definition pure_conditions : @ChainedCondition Z unit :=
  mkChainedCondition (map pure_branch pure_branches) true None false.

(** [def __init__(self, a, b, p=3, *, q=7)], as [getfullargspec] gives
    it. *)
Definition example_signature : @FullArgSpec Z :=
  mkFullArgSpec ["self"; "a"; "b"; "p"] None (Some [3%Z]) (Some [("q", 7%Z)]).

(** * Properties of ChainedCondition *)

Section ChainedConditionFacts.

Context {X W : Type}.

Implicit Types (s : @state X W) (o : @ChainedCondition X W)
  (c : @_IfThen X W) (e : X) (w : W) (self : ref).

Ltac run :=
  unfold apply, otherwise, done, if_then, close_pipeline, check_pipeline,
    append_condition, set_closed, closed, default_name, __str__, __init__,
    load, store, bind, ret, raise in *;
  simpl in *.

Lemma apply_loop_rejected conditions e (h : list ChainedCondition) w w' :
  rejected conditions e w = Some w' ->
  apply_loop conditions e (mkState h w) = (inr e, mkState h w').
Proof.
  revert w. induction conditions as [|c rest IH]; intros w Hrej; simpl in *.
  - injection Hrej as <-. reflexivity.
  - unfold bind, IfThen_apply, call, bind. simpl.
    destruct (_if c e w) as [b w1] eqn:Hif.
    destruct b; [discriminate|]. simpl.
    apply IH. exact Hrej.
Qed.

Lemma apply_loop_first_match pre c post e (h : list ChainedCondition)
      w w' w1 w2 y :
  rejected pre e w = Some w' ->
  _if c e w' = (true, w1) ->
  _func c e w1 = (y, w2) ->
  apply_loop (pre ++ c :: post) e (mkState h w) = (inr y, mkState h w2).
Proof.
  revert w. induction pre as [|c0 pre IH]; intros w Hrej Hif Hfunc; simpl in *.
  - injection Hrej as <-.
    unfold bind, IfThen_apply, call, bind, ret. simpl.
    rewrite Hif. simpl. rewrite Hfunc. reflexivity.
  - unfold bind, IfThen_apply, call, bind. simpl.
    destruct (_if c0 e w) as [b w0] eqn:Hif0.
    destruct b; [discriminate|]. simpl.
    apply IH; assumption.
Qed.

Lemma apply_loop_returns conditions e (h : list ChainedCondition) w :
  exists y w', apply_loop conditions e (mkState h w) = (inr y, mkState h w').
Proof.
  revert w. induction conditions as [|c rest IH]; intros w; simpl.
  - exists e, w. reflexivity.
  - unfold bind, IfThen_apply, call, bind, ret. simpl.
    destruct (_if c e w) as [b w1] eqn:Hif.
    destruct b; simpl.
    + destruct (_func c e w1) as [y w2] eqn:Hfunc. simpl.
      exists y, w2. reflexivity.
    + apply IH.
Qed.

Lemma apply_closed_returns self o e s :
  heap s !! self = Some o ->
  _closed o = true ->
  exists y w', apply self e s = (inr y, mkState (heap s) w').
Proof.
  intros Hload Hclosed. destruct s as [h w]. run.
  rewrite Hload, Hclosed. simpl. apply apply_loop_returns.
Qed.

(** C1: on a CLOSED ChainedCondition, [apply e] calls the predicates in
    insertion order up to the first one that returns true and returns
    that branch's transform of [e]; the branches after it are not
    called, whatever they are; when every predicate returns false it
    returns [e] itself. *)
Theorem apply_first_match_wins self o e s :
  heap s !! self = Some o ->
  _closed o = true ->
  (forall pre c post w' w1 w2 y,
      _conditions o = pre ++ c :: post ->
      rejected pre e (world s) = Some w' ->
      _if c e w' = (true, w1) ->
      _func c e w1 = (y, w2) ->
      apply self e s = (inr y, mkState (heap s) w2))
  /\ (forall w',
      rejected (_conditions o) e (world s) = Some w' ->
      apply self e s = (inr e, mkState (heap s) w')).
Proof.
  intros Hload Hclosed. destruct s as [h w]. split.
  - intros pre c post w' w1 w2 y Hsplit Hrej Hif Hfunc. run.
    rewrite Hload, Hclosed, Hsplit. simpl.
    eapply apply_loop_first_match; eassumption.
  - intros w' Hrej. run.
    rewrite Hload, Hclosed. simpl.
    apply apply_loop_rejected. exact Hrej.
Qed.

(** C6: on an OPEN ChainedCondition, [apply e] raises PipelineNOTClosed
    and leaves the store and the caller's world as they were: no
    predicate and no transform is called, whatever the branches are. *)
Theorem apply_open_raises self o e s :
  heap s !! self = Some o ->
  _closed o = false ->
  apply self e s = (inl PipelineNotClosed, s).
Proof.
  intros Hload Hopen. run. rewrite Hload, Hopen. reflexivity.
Qed.

Lemma apply_each_closed_returns self o es s :
  heap s !! self = Some o ->
  _closed o = true ->
  exists ys w', apply_each self es s = (inr ys, mkState (heap s) w').
Proof.
  intros Hload Hclosed. revert s Hload.
  induction es as [|e rest IH]; intros s Hload; simpl.
  - exists [], (world s). destruct s. reflexivity.
  - destruct (apply_closed_returns self o e s Hload Hclosed) as (y & w1 & Hy).
    unfold bind at 1. rewrite Hy.
    destruct (IH (mkState (heap s) w1) Hload) as (ys & w2 & Hys).
    unfold bind at 1. rewrite Hys. simpl.
    exists (y :: ys), w2. reflexivity.
Qed.

(** C4: on a CLOSED ChainedCondition, [if_then] raises
    PipelineAlreadyClosed, and so do [otherwise] and [done]; all three
    leave the store as it was.  [apply] returns and leaves the store as
    it was, branch list and closed flag included, once or over any
    sequence of elements. *)
Theorem closed_is_terminal self o s :
  heap s !! self = Some o ->
  _closed o = true ->
  (forall predicate func,
      if_then self predicate func s = (inl PipelineAlreadyClosed, s))
  /\ (forall func, otherwise self func s = (inl PipelineAlreadyClosed, s))
  /\ done self s = (inl PipelineAlreadyClosed, s)
  /\ (forall e, exists y w',
        apply self e s = (inr y, mkState (heap s) w'))
  /\ (forall es, exists ys w',
        apply_each self es s = (inr ys, mkState (heap s) w')).
Proof.
  intros Hload Hclosed. repeat split.
  - intros predicate func. run. rewrite Hload. simpl. rewrite Hclosed. reflexivity.
  - intros func. run. rewrite Hload. simpl. rewrite Hclosed. reflexivity.
  - run. rewrite Hload. simpl. rewrite Hclosed. reflexivity.
  - intros e. eapply apply_closed_returns; eassumption.
  - intros es. eapply apply_each_closed_returns; eassumption.
Qed.

(** C5: on an OPEN ChainedCondition, [otherwise] with no branch present
    raises the AttributeError of the NoConditionDefined kind and leaves
    the store as it was; with at least one branch present it appends
    one branch, made of a predicate that returns true on every element
    and of the given transform, sets the closed flag, and returns the
    receiver. *)
Theorem otherwise_on_open self o func s :
  heap s !! self = Some o ->
  _closed o = false ->
  (_conditions o = [] ->
   otherwise self func s = (inl NoConditionDefined, s))
  /\ (_conditions o <> [] ->
      otherwise self func s =
        (inr self,
         mkState (<[self := mkChainedCondition
                              (_conditions o ++ [IfThen always_true func])
                              true (_name o) (_else_called o)]> (heap s))
                 (world s))
      /\ forall e w, always_true e w = (true, w)).
Proof.
  intros Hload Hopen. split.
  - intros Hnone. run. rewrite Hload. simpl. rewrite Hopen, Hload, Hnone.
    reflexivity.
  - intros Hsome. split; [|reflexivity].
    pose proof (lookup_lt_Some _ _ _ Hload) as Hlt.
    destruct (_conditions o) as [|c0 rest] eqn:Hconds; [congruence|].
    run.
    repeat (first [ rewrite Hload | rewrite Hopen | rewrite Hconds
                  | rewrite list_lookup_insert_eq by exact Hlt
                  | rewrite list_insert_insert_eq ]; simpl).
    reflexivity.
Qed.

(** C8: [if_else predicate if_ else_] does what a new instance with
    [if_then predicate if_] and then [otherwise else_] called on it
    does: both allocate one object holding the two branches, CLOSED,
    and return it, and [apply] on it returns [if_ e] when [predicate e]
    is true and [else_ e] otherwise. *)
Theorem if_else_is_if_then_otherwise (predicate : Filter) (if_ else_ : Function) s :
  let r := length (heap s) in
  let o := mkChainedCondition
             [IfThen predicate if_; IfThen always_true else_] true None false in
  if_else predicate if_ else_ s = if_else_spec predicate if_ else_ s
  /\ if_else predicate if_ else_ s = (inr r, mkState (heap s ++ [o]) (world s))
  /\ (heap s ++ [o]) !! r = Some o
  /\ _closed o = true
  /\ forall e w,
      apply r e (mkState (heap s ++ [o]) w) =
        (let (b, w1) := predicate e w in
         let (y, w2) := if b then if_ e w1 else else_ e w1 in
         (inr y, mkState (heap s ++ [o]) w2)).
Proof.
  intros r o. subst r.
  assert (Hnew : forall o' : @ChainedCondition X W,
             (heap s ++ [o']) !! length (heap s) = Some o')
    by (intros o'; apply list_lookup_middle; reflexivity).
  assert (Hins : forall o1 o2 : @ChainedCondition X W,
             <[length (heap s) := o2]> (heap s ++ [o1]) = heap s ++ [o2]).
  { intros o1 o2. rewrite insert_app_r_alt by lia.
    rewrite Nat.sub_diag. reflexivity. }
  assert (Hrun : if_else predicate if_ else_ s
                 = (inr (length (heap s)), mkState (heap s ++ [o]) (world s))).
  { unfold if_else. run.
    repeat (first [ rewrite Hnew | rewrite Hins ]; simpl).
    reflexivity. }
  split; [|split; [exact Hrun|split; [apply Hnew|split; [reflexivity|]]]].
  - rewrite Hrun. unfold if_else_spec. run.
    repeat (first [ rewrite Hnew | rewrite Hins ]; simpl).
    reflexivity.
  - intros e w. run. rewrite Hnew. simpl.
    unfold IfThen_apply, call, bind, ret. simpl.
    destruct (predicate e w) as [b w1]. destruct b; simpl.
    + destruct (if_ e w1) as [y w2]. reflexivity.
    + destruct (else_ e w1) as [y w2]. reflexivity.
Qed.

Lemma never_else_insert self o o' s :
  never_else s ->
  heap s !! self = Some o ->
  _else_called o' = _else_called o ->
  Forall (fun o => _else_called o = false) (<[self := o']> (heap s)).
Proof.
  intros Hall Hload Hsame. apply Forall_insert; [exact Hall|].
  rewrite Hsame.
  exact (proj1 (Forall_lookup _ _) Hall _ _ Hload).
Qed.

Lemma if_then_never_else self predicate func s :
  never_else s -> never_else (snd (if_then self predicate func s)).
Proof.
  intros Hall. run.
  destruct (heap s !! self) as [o|] eqn:Hload; simpl; [|exact Hall].
  destruct (_closed o); simpl; [exact Hall|].
  rewrite Hload. simpl.
  eapply never_else_insert; [exact Hall|exact Hload|reflexivity].
Qed.

Lemma set_closed_never_else self b s :
  never_else s -> never_else (snd (set_closed self b s)).
Proof.
  intros Hall. run.
  destruct (heap s !! self) as [o|] eqn:Hload; simpl; [|exact Hall].
  eapply never_else_insert; [exact Hall|exact Hload|reflexivity].
Qed.

(** [otherwise] never sets [_else_called]; neither does any other
    method, so the flag [__init__] clears stays cleared. *)
Lemma otherwise_never_else self func s :
  never_else s -> never_else (snd (otherwise self func s)).
Proof.
  intros Hall. unfold never_else in *. run.
  destruct (heap s !! self) as [o|] eqn:Hload; simpl; [|exact Hall].
  pose proof (lookup_lt_Some _ _ _ Hload) as Hlt.
  pose proof (proj1 (Forall_lookup _ _) Hall _ _ Hload) as Ho.
  destruct (_closed o) eqn:Hclosed; simpl; [exact Hall|].
  rewrite Hload.
  destruct (_conditions o) eqn:Hconds; simpl; [exact Hall|].
  repeat (first [ rewrite Hload | rewrite Hclosed | rewrite Hconds
                | rewrite list_lookup_insert_eq by exact Hlt
                | rewrite list_insert_insert_eq ]; simpl).
  apply Forall_insert; [exact Hall|exact Ho].
Qed.

Lemma init_never_else name s :
  never_else s -> never_else (snd (__init__ name s)).
Proof.
  intros Hall. unfold never_else, __init__. simpl.
  apply Forall_app. split; [exact Hall|].
  constructor; [reflexivity|constructor].
Qed.

(** C9: the description of a ChainedCondition closed by [otherwise]
    does not name an 'else' condition: after [if_then] and [otherwise]
    it is the text that two [if_then] and [done] give, since no method
    sets [_else_called]; the text with 'else' is what [default_name]
    holds for the same branches once the flag is set. *)
Theorem otherwise_described_without_else
        (predicate predicate2 : Filter) (if_ else_ func2 : Function) s :
  let described_by_done : M string :=
    bind (__init__ None) (fun r =>
    bind (if_then r predicate if_) (fun r1 =>
    bind (if_then r1 predicate2 func2) (fun r2 =>
    bind (done r2) (fun r3 => __str__ r3)))) in
  fst (bind (if_else predicate if_ else_) __str__ s)
    = inr "ChainedCondition defines 'if' then 1 elif condition"
  /\ fst (described_by_done s)
    = inr "ChainedCondition defines 'if' then 1 elif condition"
  /\ default_name_of
       (mkChainedCondition [IfThen predicate if_; IfThen always_true else_]
                           true None true)
    = "ChainedCondition defines 'if' and 'else' condition".
Proof.
  intros described_by_done. subst described_by_done.
  assert (Hnew : forall o' : @ChainedCondition X W,
             (heap s ++ [o']) !! length (heap s) = Some o')
    by (intros o'; apply list_lookup_middle; reflexivity).
  assert (Hins : forall o1 o2 : @ChainedCondition X W,
             <[length (heap s) := o2]> (heap s ++ [o1]) = heap s ++ [o2]).
  { intros o1 o2. rewrite insert_app_r_alt by lia.
    rewrite Nat.sub_diag. reflexivity. }
  split; [|split; [|reflexivity]].
  - unfold if_else. run.
    repeat (first [ rewrite Hnew | rewrite Hins ]; run).
    reflexivity.
  - run.
    repeat (first [ rewrite Hnew | rewrite Hins ]; run).
    reflexivity.
Qed.

End ChainedConditionFacts.

(** * Properties of divide_in_chunk *)

Section UtilsFacts.

Context {T : Type}.

Implicit Types (docs : list T).

(** A slice between two indices that are not negative. *)
Lemma slice_nat docs (i j : nat) :
  (i <= j)%nat ->
  slice docs (Z.of_nat i) (Z.of_nat j) = firstn (j - i) (skipn i docs).
Proof.
  intros Hij. unfold slice, adjust_index.
  destruct (Z.ltb_spec (Z.of_nat i) 0) as [Hneg|_]; [lia|].
  destruct (Z.ltb_spec (Z.of_nat j) 0) as [Hneg|_]; [lia|].
  destruct (Nat.le_gt_cases i (length docs)) as [Hi|Hi].
  - rewrite (Z.min_l (Z.of_nat i)) by lia. rewrite Nat2Z.id.
    destruct (Nat.le_gt_cases j (length docs)) as [Hj|Hj].
    + rewrite Z.min_l by lia. f_equal. lia.
    + rewrite Z.min_r by lia.
      rewrite !firstn_all2; [reflexivity| |]; rewrite length_skipn; lia.
  - rewrite !Z.min_r by lia. rewrite Z.sub_diag.
    change (Z.to_nat 0) with 0%nat.
    assert (Hnone : skipn i docs = []) by (apply skipn_all2; lia).
    rewrite Hnone, firstn_nil. reflexivity.
Qed.

(** The first [m] chunks of size [n] are the first [m * n] elements. *)
Lemma concat_chunks docs (n m : nat) :
  concat (map (fun k => firstn n (skipn (k * n) docs)) (seq 0 m))
  = firstn (m * n) docs.
Proof.
  induction m as [|m IH].
  - reflexivity.
  - rewrite seq_S, map_app, concat_app, IH. simpl.
    rewrite app_nil_r.
    replace (n + m * n)%nat with (m * n + n)%nat by lia.
    rewrite <- (firstn_skipn (m * n) (firstn (m * n + n) docs)).
    rewrite firstn_firstn, Nat.min_l by lia.
    f_equal.
    rewrite skipn_firstn_comm. f_equal. lia.
Qed.

Lemma range_from_zero (len n : Z) :
  (0 < n)%Z -> (0 < len)%Z ->
  @range 0 len n
  = inr (map (fun k => (Z.of_nat k * n)%Z)
             (seq 0 (Z.to_nat ((len - 1) / n + 1)))).
Proof.
  intros Hn Hlen. unfold range, range_length.
  destruct (Z.eqb_spec n 0) as [->|_]; [lia|].
  destruct (Z.ltb_spec 0 n) as [_|Hneg]; [|lia].
  destruct (Z.leb_spec len 0) as [Hle|_]; [lia|].
  rewrite Z.sub_0_r. f_equal.
Qed.

(** The chunks of a sequence longer than the chunk size. *)
Lemma divide_in_chunk_long docs (n : Z) :
  (0 < n < Z.of_nat (length docs))%Z ->
  divide_in_chunk docs n
  = inr (map (fun k => firstn (Z.to_nat n) (skipn (k * Z.to_nat n) docs))
             (seq 0 (Z.to_nat ((Z.of_nat (length docs) - 1) / n + 1)))).
Proof.
  intros [Hn Hlong]. unfold divide_in_chunk.
  destruct (Z.leb_spec (Z.of_nat (length docs)) n) as [Hle|_]; [lia|].
  rewrite range_from_zero by lia.
  f_equal. rewrite map_map. apply map_ext. intros k.
  replace (Z.of_nat k * n)%Z with (Z.of_nat (k * Z.to_nat n)) by lia.
  replace (Z.of_nat (k * Z.to_nat n) + n)%Z
    with (Z.of_nat (k * Z.to_nat n + Z.to_nat n)) by lia.
  rewrite slice_nat by lia. f_equal. lia.
Qed.

Lemma chunk_count_bounds (len n : Z) :
  (0 < n)%Z -> (0 < len)%Z ->
  ((len - 1) / n * n <= len - 1 < ((len - 1) / n + 1) * n)%Z.
Proof.
  intros Hn Hlen.
  pose proof (Z.mul_div_le (len - 1) n Hn).
  pose proof (Z.mul_succ_div_gt (len - 1) n Hn).
  lia.
Qed.

Lemma ceil_div_pred (len n : Z) :
  (0 < n)%Z -> ceil_div len n = ((len - 1) / n + 1)%Z.
Proof.
  intros Hn. unfold ceil_div.
  replace (len + n - 1)%Z with (len - 1 + 1 * n)%Z by lia.
  rewrite Z.div_add by lia. reflexivity.
Qed.

(** C10: a sequence no longer than the chunk size, the empty one
    included, comes back as one chunk, the sequence itself. *)
Theorem divide_in_chunk_short docs (chunk_size : Z) :
  (Z.of_nat (length docs) <= chunk_size)%Z ->
  divide_in_chunk docs chunk_size = inr [docs]
  /\ (docs = [] -> divide_in_chunk docs chunk_size = inr [[]]).
Proof.
  intros Hshort. unfold divide_in_chunk.
  destruct (Z.leb_spec (Z.of_nat (length docs)) chunk_size) as [_|Hlong];
    [|lia].
  split; [reflexivity|]. intros ->. reflexivity.
Qed.

(** X18: for a chunk size [n] of at least 1, the chunks that
    [divide_in_chunk] of [utility/utils.py] yields for a sequence that is
    not empty are [ceil (L / n)] in number, and the empty sequence gives
    one empty chunk; every chunk but the last has [n] elements, no chunk
    has more, and the chunks put end to end are the sequence. *)
Theorem divide_in_chunk_groups docs (n : Z) :
  (1 <= n)%Z ->
  exists groups,
    divide_in_chunk docs n = inr groups
    /\ (docs <> [] ->
        Z.of_nat (length groups) = ceil_div (Z.of_nat (length docs)) n)
    /\ (docs = [] -> groups = [[]])
    /\ concat groups = docs
    /\ (forall i, (S i < length groups)%nat ->
                  Z.of_nat (length (nth i groups [])) = n)
    /\ (forall g, In g groups -> (Z.of_nat (length g) <= n)%Z).
Proof.
  intros Hn.
  destruct (Z.le_gt_cases (Z.of_nat (length docs)) n) as [Hshort|Hlong].
  - exists [docs]. unfold divide_in_chunk.
    destruct (Z.leb_spec (Z.of_nat (length docs)) n) as [_|Hgt]; [|lia].
    split; [reflexivity|]. split; [|split; [|split; [|split]]].
    + intros Hsome. rewrite ceil_div_pred by lia.
      assert (0 < length docs)%nat by (destruct docs; [congruence|simpl; lia]).
      rewrite Z.div_small by lia. reflexivity.
    + intros ->. reflexivity.
    + simpl. apply app_nil_r.
    + simpl. intros i Hi. lia.
    + intros g [<-|[]]. exact Hshort.
  - pose proof (chunk_count_bounds (Z.of_nat (length docs)) n) as Hbounds.
    set (m := ((Z.of_nat (length docs) - 1) / n + 1)%Z) in *.
    assert (Hm : (0 < m)%Z).
    { unfold m. pose proof (Z.div_pos (Z.of_nat (length docs) - 1) n). lia. }
    eexists. split; [apply divide_in_chunk_long; lia|].
    fold m. split; [|split; [|split; [|split]]].
    + intros _. rewrite length_map, length_seq, ceil_div_pred by lia.
      fold m. lia.
    + intros ->. simpl in Hlong. lia.
    + rewrite concat_chunks. apply firstn_all2. nia.
    + intros i. rewrite length_map, length_seq. intros Hi.
      rewrite (nth_indep _ []
                 (firstn (Z.to_nat n) (skipn (0 * Z.to_nat n) docs)))
        by (rewrite length_map, length_seq; lia).
      rewrite (map_nth (fun k => firstn (Z.to_nat n)
                                   (skipn (k * Z.to_nat n) docs))).
      rewrite seq_nth by lia. simpl.
      rewrite length_firstn, length_skipn. unfold m in *. nia.
    + intros g Hin. apply in_map_iff in Hin as (k & <- & _).
      rewrite length_firstn. lia.
Qed.

End UtilsFacts.

Lemma divide_in_chunk_short_witness :
  divide_in_chunk [2; 3; 4]%Z 3 = inr [[2; 3; 4]%Z]
  /\ divide_in_chunk (@nil Z) 0 = inr [[]].
Proof.
  split.
  - apply (divide_in_chunk_short [2; 3; 4]%Z 3). simpl. lia.
  - apply (divide_in_chunk_short (@nil Z) 0); [simpl; lia|reflexivity].
Defined.

Lemma divide_in_chunk_groups_witness :
  exists groups,
    divide_in_chunk [2; 3; 4; 5; 6; 7; 8; 9; 10; 11]%Z 3 = inr groups
    /\ Z.of_nat (length groups) = 4%Z
    /\ concat groups = [2; 3; 4; 5; 6; 7; 8; 9; 10; 11]%Z.
Proof.
  destruct (divide_in_chunk_groups [2; 3; 4; 5; 6; 7; 8; 9; 10; 11]%Z 3)
    as (groups & Hrun & Hcount & _ & Hconcat & _); [lia|].
  exists groups. split; [exact Hrun|]. split; [|exact Hconcat].
  rewrite Hcount by discriminate. reflexivity.
Defined.

(** The test of [divide_in_chunk] in [utils_test.py]. *)
Example test_divide_in_chunk :
  divide_in_chunk [2; 3; 4; 5; 6; 7; 8; 9; 10; 11]%Z 3
  = inr [[2; 3; 4]; [5; 6; 7]; [8; 9; 10]; [11]]%Z.
Proof. reflexivity. Qed.

(** * Properties of reduce and zip_longest *)

Section StreamFacts.

Context {X : Type}.

Implicit Types (source self : list X) (others seqs : list (list X)).

Lemma reduce_from_fold_left (bi_func : X -> X -> X) source (acc : X) :
  reduce_from bi_func acc source = fold_left bi_func source acc.
Proof.
  revert acc. induction source as [|e rest IH]; intros acc; simpl.
  - reflexivity.
  - apply IH.
Qed.

(** C2: without an initial point, [reduce] of the empty source is the
    empty Optional and [reduce] of a source that is not empty holds the
    left fold of the rest seeded with the first element; with an initial
    point [v] it holds the left fold of the source seeded with [v],
    which is [v] for the empty source. *)
Theorem reduce_left_fold (bi_func : X -> X -> X) :
  reduce [] bi_func None = EMPTY
  /\ (forall first rest,
        reduce (first :: rest) bi_func None
        = Optional_of (fold_left bi_func rest first))
  /\ (forall v, reduce [] bi_func (Some v) = Optional_of v)
  /\ (forall v source,
        reduce source bi_func (Some v)
        = Optional_of (fold_left bi_func source v)).
Proof.
  repeat split.
  - intros first rest. simpl. now rewrite reduce_from_fold_left.
  - intros v source. simpl. now rewrite reduce_from_fold_left.
Qed.

Lemma zip_longest_rows_step (fillvalue : X) seqs :
  zip_longest_rows fillvalue seqs
  = if forallb exhausted seqs then []
    else map (next_or fillvalue) seqs
           :: zip_longest_rows fillvalue (map (@tail X) seqs).
Proof.
  funelim (zip_longest_rows fillvalue seqs);
    match goal with H : forallb _ _ = _ |- _ => rewrite H end;
    reflexivity.
Qed.

Lemma field_next_or (fillvalue : X) (s : list X) :
  next_or fillvalue s = field fillvalue 0 s.
Proof. destruct s; reflexivity. Qed.

Lemma field_tail (fillvalue : X) (i : nat) (s : list X) :
  field fillvalue i (tail s) = field fillvalue (S i) s.
Proof. destruct s; [destruct i|]; reflexivity. Qed.

(** One row per position below the longest length, holding what every
    sequence contributes at that position. *)
Lemma zip_longest_rows_positions (fillvalue : X) seqs :
  length (zip_longest_rows fillvalue seqs) = longest seqs
  /\ forall i, i < longest seqs ->
       nth_error (zip_longest_rows fillvalue seqs) i
       = Some (map (field fillvalue i) seqs).
Proof.
  remember (longest seqs) as n eqn:Hn. revert seqs Hn.
  induction n as [|n IH]; intros seqs Hn;
    rewrite zip_longest_rows_step;
    destruct (forallb exhausted seqs) eqn:Hall.
  - split; [reflexivity|]. intros i Hi. lia.
  - pose proof (longest_positive seqs Hall). lia.
  - pose proof (longest_exhausted seqs Hall). lia.
  - destruct (IH (map (@tail X) seqs)) as [Hlen Hrows].
    { rewrite longest_tail, <- Hn. reflexivity. }
    split; [simpl; now rewrite Hlen|].
    intros [|i] Hi; simpl.
    + f_equal. apply map_ext. apply field_next_or.
    + rewrite Hrows by lia. f_equal.
      rewrite map_map. apply map_ext. intros s. apply field_tail.
Qed.

Lemma longest_snoc seqs self :
  longest (seqs ++ [self]) = longest (self :: seqs).
Proof.
  unfold longest. rewrite map_app, list_max_app. simpl. lia.
Qed.

(** C7: [zip_longest] gives as many tuples as the longest of the
    Stream's own sequence and the other sequences has elements; at
    every position each sequence contributes its element there, or
    [fillvalue] once it is exhausted; the Stream's own element is the
    first field when [after] holds and the last otherwise, with the
    other sequences in argument order. *)
Theorem zip_longest_positions self others (after : bool) (fillvalue : X) :
  let n := list_max (map (@length X) (self :: others)) in
  length (zip_longest self others after fillvalue) = n
  /\ forall i, i < n ->
       nth_error (zip_longest self others after fillvalue) i
       = Some (if after
               then field fillvalue i self :: map (field fillvalue i) others
               else map (field fillvalue i) others ++ [field fillvalue i self]).
Proof.
  intros n. subst n. fold (longest (self :: others)).
  unfold zip_longest. destruct after.
  - apply zip_longest_rows_positions.
  - destruct (zip_longest_rows_positions fillvalue (others ++ [self]))
      as [Hlen Hrows].
    rewrite longest_snoc in Hlen, Hrows.
    split; [exact Hlen|]. intros i Hi.
    rewrite Hrows by exact Hi. now rewrite map_app.
Qed.

End StreamFacts.

(** The assertions of [test_reduce] in [stream_test.py]. *)
Example test_reduce :
  reduce [3; 4; 5; 6; 7; 8]%Z Z.add None = Optional_of 33%Z
  /\ reduce [] Z.add None = EMPTY
  /\ reduce [1]%Z Z.add None = Optional_of 1%Z
  /\ reduce [1; 2]%Z Z.add None = Optional_of 3%Z
  /\ reduce [] Z.add (Some 10%Z) = Optional_of 10%Z
  /\ reduce [1]%Z Z.add (Some 10%Z) = Optional_of 11%Z
  /\ reduce [1; 2]%Z Z.add (Some 10%Z) = Optional_of 13%Z.
Proof. repeat split. Qed.

(** The assertions of [test_zip_longest] in [stream_test.py]; [None] is
    [-2] here. *)
Example test_zip_longest :
  zip_longest [4; 1; 2; 3]%Z [[0; 1; 2; 3; 4; 5; 6; 7; 8]; [2; 3; 4; 5; 6; 7; 8]]%Z
              true (-1)%Z
  = [[4; 0; 2]; [1; 1; 3]; [2; 2; 4]; [3; 3; 5]; [-1; 4; 6]; [-1; 5; 7];
     [-1; 6; 8]; [-1; 7; -1]; [-1; 8; -1]]%Z
  /\ zip_longest [4; 1; 2; 3]%Z
                 [[0; 1; 2; 3; 4; 5; 6; 7; 8]; [2; 3; 4; 5; 6; 7; 8]]%Z
                 false (-2)%Z
  = [[0; 2; 4]; [1; 3; 1]; [2; 4; 2]; [3; 5; 3]; [4; 6; -2]; [5; 7; -2];
     [6; 8; -2]; [7; -2; -2]; [8; -2; -2]]%Z.
Proof. split; vm_compute; reflexivity. Qed.

Lemma zip_longest_positions_witness :
  nth_error
    (zip_longest [4; 1; 2; 3]%Z
                 [[0; 1; 2; 3; 4; 5; 6; 7; 8]; [2; 3; 4; 5; 6; 7; 8]]%Z
                 false (-1)%Z) 7
  = Some [7; -1; -1]%Z.
Proof.
  apply (proj2 (zip_longest_positions
                  [4; 1; 2; 3]%Z
                  [[0; 1; 2; 3; 4; 5; 6; 7; 8]; [2; 3; 4; 5; 6; 7; 8]]%Z
                  false (-1)%Z) 7%nat).
  simpl. lia.
Defined.

(** * The conditions of the tests, built and applied *)

(** [ChainedCondition().if_then(...).if_then(...).if_then(...)] and then
    [done()] build these two objects in an empty store. *)
Example test_conditional1_built :
  bind (__init__ None) (fun r =>
  bind (if_then r (at_most 1 10) (always 1 10)) (fun r =>
  bind (if_then r (at_most 2 20) (always 2 20)) (fun r =>
  if_then r (at_most 3 30) (always 3 30)))) (mkState [] [])
  = (inr 0%nat, mkState [open_conditions] [])
  /\ done 0%nat (mkState [open_conditions] [])
    = (inr 0%nat, mkState [done_conditions] []).
Proof. split; reflexivity. Qed.

Lemma apply_first_match_wins_witness :
  apply 0%nat 15%Z (mkState [done_conditions] [])
  = (inr 20%Z, mkState [done_conditions] [1; 2; 12]%nat)
  /\ apply 0%nat 45%Z (mkState [done_conditions] [])
    = (inr 45%Z, mkState [done_conditions] [1; 2; 3]%nat).
Proof.
  pose proof (apply_first_match_wins 0%nat done_conditions) as Hwins.
  split.
  - refine (proj1 (Hwins 15%Z (mkState [done_conditions] []) eq_refl eq_refl)
              [IfThen (at_most 1 10) (always 1 10)]
              (IfThen (at_most 2 20) (always 2 20))
              [IfThen (at_most 3 30) (always 3 30)]
              [1]%nat [1; 2]%nat [1; 2; 12]%nat 20%Z _ _ _ _);
      reflexivity.
  - apply (proj2 (Hwins 45%Z (mkState [done_conditions] []) eq_refl eq_refl)).
    reflexivity.
Defined.

Lemma apply_open_raises_witness :
  apply 0%nat 15%Z (mkState [open_conditions] [])
  = (inl PipelineNotClosed, mkState [open_conditions] []).
Proof.
  apply (apply_open_raises 0%nat open_conditions 15%Z
           (mkState [open_conditions] []));
    reflexivity.
Defined.

Lemma closed_is_terminal_witness :
  if_then 0%nat (at_most 4 40) (always 4 40) (mkState [done_conditions] [])
  = (inl PipelineAlreadyClosed, mkState [done_conditions] [])
  /\ exists ys log,
      apply_each 0%nat [5; 15; 45]%Z (mkState [done_conditions] [])
      = (inr ys, mkState [done_conditions] log).
Proof.
  destruct (closed_is_terminal 0%nat done_conditions
              (mkState [done_conditions] []) eq_refl eq_refl)
    as (Hif_then & _ & _ & _ & Heach).
  split.
  - apply Hif_then.
  - apply Heach.
Defined.

Lemma otherwise_on_open_witness :
  otherwise 0%nat (always 4 (-1)) (mkState [mkChainedCondition [] false None false] [])
  = (inl NoConditionDefined, mkState [mkChainedCondition [] false None false] [])
  /\ otherwise 0%nat (always 4 (-1)) (mkState [open_conditions] [])
    = (inr 0%nat,
       mkState [mkChainedCondition
                  (three_branches ++ [IfThen always_true (always 4 (-1))])
                  true None false] []).
Proof.
  split.
  - apply (proj1 (otherwise_on_open 0%nat (mkChainedCondition [] false None false)
                    (always 4 (-1))
                    (mkState [mkChainedCondition [] false None false] [])
                    eq_refl eq_refl)).
    reflexivity.
  - apply (proj2 (otherwise_on_open 0%nat open_conditions (always 4 (-1))
                    (mkState [open_conditions] []) eq_refl eq_refl)).
    discriminate.
Defined.

(** * More on ChainedCondition: building, fallback, what apply leaves alone *)

Section ChainedConditionBuild.

Context {X W : Type}.

Implicit Types (s : @state X W) (o : @ChainedCondition X W)
  (c : @_IfThen X W) (e : X) (w : W) (self : ref).

Ltac run :=
  unfold apply, otherwise, done, if_then, close_pipeline, check_pipeline,
    append_condition, set_closed, closed, default_name, __str__, __init__,
    load, store, bind, ret, raise in *;
  simpl in *.

(** [if_then] on an OPEN instance: one branch more at the end, the
    instance still OPEN, the receiver returned. *)
Lemma if_then_open self o (predicate : Filter) (func : Function) s :
  heap s !! self = Some o ->
  _closed o = false ->
  if_then self predicate func s
  = (inr self,
     mkState (<[self := mkChainedCondition
                          (_conditions o ++ [IfThen predicate func])
                          false (_name o) (_else_called o)]> (heap s))
             (world s)).
Proof.
  intros Hload Hopen. run. rewrite Hload. simpl. rewrite Hopen, Hload.
  simpl. rewrite Hopen. reflexivity.
Qed.

Lemma if_then_each_open self o (branches : list (@_IfThen X W)) s :
  heap s !! self = Some o ->
  _closed o = false ->
  if_then_each self branches s
  = (inr self,
     mkState (<[self := mkChainedCondition (_conditions o ++ branches)
                          false (_name o) (_else_called o)]> (heap s))
             (world s)).
Proof.
  revert o s. induction branches as [|c rest IH]; intros o s Hload Hopen.
  - simpl. unfold ret. rewrite app_nil_r.
    destruct o as [conds cl nm ec]. simpl in *. subst cl.
    rewrite list_insert_id by exact Hload. destruct s. reflexivity.
  - pose proof (lookup_lt_Some _ _ _ Hload) as Hlt.
    simpl. unfold bind at 1.
    rewrite (if_then_open self o (_if c) (_func c) s Hload Hopen).
    erewrite IH; [|simpl; apply list_lookup_insert_eq; exact Hlt|reflexivity].
    simpl. rewrite list_insert_insert_eq, <- app_assoc.
    destruct c. reflexivity.
Qed.

Lemma new_lookup (h : list (@ChainedCondition X W)) o :
  (h ++ [o]) !! length h = Some o.
Proof. apply list_lookup_middle. reflexivity. Qed.

Lemma new_insert (h : list (@ChainedCondition X W)) o o' :
  <[length h := o']> (h ++ [o]) = h ++ [o'].
Proof.
  rewrite insert_app_r_alt by lia. rewrite Nat.sub_diag. reflexivity.
Qed.

(** X1: [ChainedCondition(name)], then [if_then] once per branch of a
    list, then [done()], allocates one object that holds exactly these
    branches in the order of the calls, CLOSED; the objects already in the
    store and the caller's world are as they were. *)
Theorem build_with_done name (branches : list (@_IfThen X W)) s :
  bind (__init__ name) (fun r => bind (if_then_each r branches) done) s
  = (inr (length (heap s)),
     mkState (heap s ++ [mkChainedCondition branches true name false])
             (world s)).
Proof.
  unfold bind at 1. unfold __init__. unfold bind at 1.
  erewrite if_then_each_open; [|apply new_lookup|reflexivity].
  simpl. rewrite new_insert. run.
  rewrite new_lookup. simpl. rewrite new_lookup. simpl.
  rewrite new_insert. reflexivity.
Qed.

(** X2: the same chain ended by [otherwise(func)] instead of [done()],
    with at least one [if_then] before it, gives the CLOSED object whose
    branches are those of the calls followed by the always-true branch of
    [func]. *)
Theorem build_with_otherwise name c (rest : list (@_IfThen X W))
        (func : Function) s :
  bind (__init__ name)
       (fun r => bind (if_then_each r (c :: rest))
                      (fun r1 => otherwise r1 func)) s
  = (inr (length (heap s)),
     mkState (heap s ++ [mkChainedCondition
                           ((c :: rest) ++ [IfThen always_true func])
                           true name false])
             (world s)).
Proof.
  unfold bind at 1. unfold __init__. unfold bind at 1.
  erewrite if_then_each_open; [|apply new_lookup|reflexivity].
  simpl. rewrite new_insert. run.
  repeat (first [ rewrite new_lookup | rewrite new_insert ]; simpl).
  reflexivity.
Qed.

Lemma rejected_app (pre post : list (@_IfThen X W)) e w :
  rejected (pre ++ post) e w
  = match rejected pre e w with
    | Some w' => rejected post e w'
    | None => None
    end.
Proof.
  revert w. induction pre as [|c pre IH]; intros w; simpl.
  - reflexivity.
  - destruct (_if c e w) as [b w1]. destruct b; [reflexivity|]. apply IH.
Qed.

Lemma apply_loop_match_last pre c e (h : list ChainedCondition) w w' w1 :
  rejected pre e w = Some w' ->
  _if c e w' = (true, w1) ->
  apply_loop (pre ++ [c]) e (mkState h w)
  = (inr (fst (_func c e w1)), mkState h (snd (_func c e w1))).
Proof.
  revert w. induction pre as [|c0 pre IH]; intros w Hrej Hif; simpl in *.
  - injection Hrej as <-.
    unfold bind, IfThen_apply, call, bind, ret. simpl.
    rewrite Hif. simpl. destruct (_func c e w1). reflexivity.
  - unfold bind, IfThen_apply, call, bind. simpl.
    destruct (_if c0 e w) as [b w0] eqn:Hif0.
    destruct b; [discriminate|]. simpl.
    apply IH; assumption.
Qed.

(** X3: on an instance closed by [otherwise(func)], the fall-through
    [return e] of [apply] is never reached: the scan of the predicates
    always finds one that holds, and when every predicate before the last
    returns false the result is [func(e)]. *)
Theorem otherwise_never_falls_through self o pre (func : Function) e s :
  heap s !! self = Some o ->
  _closed o = true ->
  _conditions o = pre ++ [IfThen always_true func] ->
  rejected (_conditions o) e (world s) = None
  /\ forall w',
      rejected pre e (world s) = Some w' ->
      apply self e s
      = (inr (fst (func e w')), mkState (heap s) (snd (func e w'))).
Proof.
  intros Hload Hclosed Hconds. split.
  - rewrite Hconds, rejected_app.
    destruct (rejected pre e (world s)); reflexivity.
  - intros w' Hrej. destruct s as [h w]. run.
    rewrite Hload, Hclosed, Hconds. simpl.
    exact (apply_loop_match_last pre (IfThen always_true func) e h w w' w'
             Hrej eq_refl).
Qed.

Lemma apply_loop_keeps_heap (conditions : list (@_IfThen X W)) e s :
  heap (snd (apply_loop conditions e s)) = heap s.
Proof.
  destruct s as [h w].
  destruct (apply_loop_returns conditions e h w) as (y & w' & ->).
  reflexivity.
Qed.

(** X4: [apply] never writes to the store: whether it returns or raises,
    on an OPEN or a CLOSED instance, every object is as it was; so is it
    after [apply] over any sequence of elements. *)
Theorem apply_keeps_store self s :
  (forall e, heap (snd (apply self e s)) = heap s)
  /\ (forall es, heap (snd (apply_each self es s)) = heap s).
Proof.
  assert (Hone : forall e s, heap (snd (apply self e s)) = heap s).
  { intros e s0. unfold apply, bind, load.
    destruct (heap s0 !! self) as [o|]; [|reflexivity].
    destruct (_closed o); simpl; [|reflexivity].
    apply apply_loop_keeps_heap. }
  split; [intros e; apply Hone|].
  intros es. revert s. induction es as [|e rest IH]; intros s; simpl.
  - reflexivity.
  - unfold bind at 1. pose proof (Hone e s) as Hfirst.
    destruct (apply self e s) as [[exc|y] s1]; simpl in *; [exact Hfirst|].
    unfold bind at 1. pose proof (IH s1) as Hrest.
    destruct (apply_each self rest s1) as [[exc|ys] s2]; simpl in *;
      congruence.
Qed.

Lemma apply_loop_pure (branches : list ((X -> bool) * (X -> X))) e s :
  apply_loop (map pure_branch branches) e s = (inr (if_elif branches e), s).
Proof.
  destruct s as [h w].
  induction branches as [|[p f] rest IH]; simpl.
  - reflexivity.
  - unfold bind, IfThen_apply, call, bind, ret, pure_filter, pure_function.
    simpl. destruct (p e); simpl; [reflexivity|]. exact IH.
Qed.

(** X5: with predicates and transforms that leave the world alone, [apply]
    on a CLOSED instance is the if/elif chain of the class docstring: the
    transform of the first predicate that holds, the element itself when
    none holds; store and world are as they were. *)
Theorem apply_pure_is_if_elif self o
        (branches : list ((X -> bool) * (X -> X))) e s :
  heap s !! self = Some o ->
  _closed o = true ->
  _conditions o = map pure_branch branches ->
  apply self e s = (inr (if_elif branches e), s).
Proof.
  intros Hload Hclosed Hconds. run.
  rewrite Hload, Hclosed, Hconds. simpl. apply apply_loop_pure.
Qed.

Lemma done_never_else self s :
  never_else s -> never_else (snd (done self s)).
Proof.
  intros Hall. unfold never_else in *. run.
  destruct (heap s !! self) as [o|] eqn:Hload; simpl; [|exact Hall].
  destruct (_closed o) eqn:Hclosed; simpl; [exact Hall|].
  rewrite Hload. simpl.
  apply Forall_insert; [exact Hall|].
  exact (proj1 (Forall_lookup _ _) Hall _ _ Hload).
Qed.

(** X6: no method sets [_else_called]: if no object of the store has the
    flag set, none has it after [ChainedCondition(name)], [if_then],
    [otherwise], [done], [apply] or [if_else]. *)
Theorem else_called_never_set s :
  never_else s ->
  (forall name, never_else (snd (__init__ name s)))
  /\ (forall self predicate func,
        never_else (snd (if_then self predicate func s)))
  /\ (forall self func, never_else (snd (otherwise self func s)))
  /\ (forall self, never_else (snd (done self s)))
  /\ (forall self e, never_else (snd (apply self e s)))
  /\ (forall predicate if_ else_,
        never_else (snd (if_else predicate if_ else_ s))).
Proof.
  intros Hall. repeat split.
  - intros name. apply init_never_else. exact Hall.
  - intros self predicate func. apply if_then_never_else. exact Hall.
  - intros self func. apply otherwise_never_else. exact Hall.
  - intros self. apply done_never_else. exact Hall.
  - intros self e. unfold never_else.
    assert (Hkeep : heap (snd (apply self e s)) = heap s).
    { unfold apply, bind, load.
      destruct (heap s !! self) as [o|]; [|reflexivity].
      destruct (_closed o); simpl; [|reflexivity].
      apply apply_loop_keeps_heap. }
    rewrite Hkeep. exact Hall.
  - intros predicate if_ else_. unfold if_else.
    unfold bind at 1.
    pose proof (init_never_else None s Hall) as Hinit.
    destruct (__init__ None s) as [[exc|r] s1]; simpl in *; [exact Hinit|].
    unfold bind at 1.
    pose proof (if_then_never_else r predicate if_ s1 Hinit) as Hthen.
    destruct (if_then r predicate if_ s1) as [[exc|r1] s2]; simpl in *;
      [exact Hthen|].
    apply otherwise_never_else. exact Hthen.
Qed.

End ChainedConditionBuild.

(** * More on utility/utils.py *)

(** ** get_file_name *)

Lemma split_cons (sep : ascii) (s : string) :
  exists piece pieces, split sep s = piece :: pieces.
Proof.
  induction s as [|ch rest (piece & pieces & IH)]; simpl.
  - eexists _, _. reflexivity.
  - destruct (Ascii.eqb ch sep); [eexists _, _; reflexivity|].
    rewrite IH. eexists _, _. reflexivity.
Qed.

Lemma length_split (sep : ascii) (s : string) :
  length (split sep s) = S (count_char sep s).
Proof.
  induction s as [|ch rest IH]; simpl; [reflexivity|].
  destruct (Ascii.eqb ch sep); simpl; [now rewrite IH|].
  destruct (split sep rest); simpl in *; lia.
Qed.

(** No piece holds a character that the string does not hold, and none
    holds the separator. *)
Lemma split_pieces (sep ch : ascii) (s : string) :
  occurs ch s = false \/ ch = sep ->
  Forall (fun piece => occurs ch piece = false) (split sep s).
Proof.
  induction s as [|c rest IH]; simpl; intros Hch.
  - constructor; [reflexivity|constructor].
  - assert (Hrest : occurs ch rest = false \/ ch = sep).
    { destruct Hch as [Hch|Hch]; [|now right].
      left. now apply orb_false_iff in Hch. }
    specialize (IH Hrest).
    destruct (Ascii.eqb_spec c sep) as [->|Hne].
    + constructor; [reflexivity|exact IH].
    + destruct (split sep rest) as [|piece pieces]; simpl.
      * constructor; [|constructor]. simpl.
        destruct (Ascii.eqb_spec c ch) as [->|_]; [|reflexivity].
        destruct Hch as [Hch|Hch]; [|congruence].
        simpl in Hch. try rewrite Ascii.eqb_refl in Hch. discriminate.
      * inversion IH as [|? ? Hpiece Hpieces]; subst.
        constructor; [|exact Hpieces]. simpl. rewrite Hpiece.
        destruct (Ascii.eqb_spec c ch) as [->|_]; [|reflexivity].
        destruct Hch as [Hch|Hch]; [|congruence].
        simpl in Hch. try rewrite Ascii.eqb_refl in Hch. discriminate.
Qed.

Lemma split_without (sep : ascii) (s : string) :
  occurs sep s = false -> split sep s = [s].
Proof.
  induction s as [|c rest IH]; simpl; intros Hnone; [reflexivity|].
  apply orb_false_iff in Hnone as [Hc Hrest].
  rewrite Hc, (IH Hrest). reflexivity.
Qed.

Lemma split_app (sep : ascii) (a b : string) :
  split sep (a ++ String sep b) = split sep a ++ split sep b.
Proof.
  induction a as [|c rest IH]; simpl.
  - rewrite Ascii.eqb_refl. reflexivity.
  - destruct (Ascii.eqb c sep); [now rewrite IH|].
    rewrite IH.
    destruct (split_cons sep rest) as (piece & pieces & ->). reflexivity.
Qed.

Lemma occurs_app (ch : ascii) (a b : string) :
  occurs ch (a ++ b) = occurs ch a || occurs ch b.
Proof.
  induction a as [|c rest IH]; simpl; [reflexivity|].
  rewrite IH. now rewrite orb_assoc.
Qed.

Lemma item_last {A : Type} (l : list A) (x : A) :
  item (l ++ [x]) (-1) = inr x.
Proof.
  unfold item. rewrite length_app. simpl.
  destruct (Z.ltb_spec (-1) 0) as [_|Hge]; [|lia].
  replace (-1 + Z.of_nat (length l + 1))%Z with (Z.of_nat (length l)) by lia.
  destruct (Z.leb_spec 0 (Z.of_nat (length l))) as [_|Hneg]; [|lia].
  destruct (Z.ltb_spec (Z.of_nat (length l)) (Z.of_nat (length l + 1)))
    as [_|Hge]; [|lia].
  simpl. rewrite Nat2Z.id, nth_error_app2 by lia.
  rewrite Nat.sub_diag. reflexivity.
Qed.

Lemma item_in_range {A : Type} (l : list A) (i : Z) :
  (- Z.of_nat (length l) <= i < Z.of_nat (length l))%Z ->
  exists x, item l i = inr x /\ In x l.
Proof.
  intros Hrange. unfold item.
  set (j := if (i <? 0)%Z then (i + Z.of_nat (length l))%Z else i).
  assert (Hj : (0 <= j < Z.of_nat (length l))%Z).
  { unfold j. destruct (Z.ltb_spec i 0); lia. }
  destruct (Z.leb_spec 0 j) as [_|Hneg]; [|lia].
  destruct (Z.ltb_spec j (Z.of_nat (length l))) as [_|Hge]; [|lia].
  simpl. destruct (nth_error l (Z.to_nat j)) as [x|] eqn:Hnth.
  - exists x. split; [reflexivity|]. eapply nth_error_In. exact Hnth.
  - apply nth_error_None in Hnth. lia.
Qed.

Lemma item_out_of_range {A : Type} (l : list A) (i : Z) :
  ~ (- Z.of_nat (length l) <= i < Z.of_nat (length l))%Z ->
  item l i = inl IndexError.
Proof.
  intros Hrange. unfold item.
  set (j := if (i <? 0)%Z then (i + Z.of_nat (length l))%Z else i).
  assert (Hj : ~ (0 <= j < Z.of_nat (length l))%Z).
  { unfold j. destruct (Z.ltb_spec i 0); lia. }
  destruct (Z.leb_spec 0 j) as [Hpos|Hneg]; [|reflexivity].
  destruct (Z.ltb_spec j (Z.of_nat (length l))) as [Hlt|Hge]; [lia|].
  reflexivity.
Qed.

(** X7: for a path that ends in a directory part, a slash, a name without
    slash or dot and, after a dot, an extension without slash,
    [get_file_name] with the default [at] returns the name; and so it
    does when the path stops after the name. *)
Theorem get_file_name_basename (dir name ext : string) :
  occurs "/" name = false ->
  occurs "." name = false ->
  occurs "/" ext = false ->
  get_file_name (dir ++ "/" ++ name ++ "." ++ ext) (-1) = inr name
  /\ get_file_name (dir ++ "/" ++ name) (-1) = inr name.
Proof.
  intros Hslash Hdot Hext. unfold get_file_name. simpl. split.
  - rewrite split_app.
    rewrite (split_without "/" (name ++ String "." ext)).
    + rewrite item_last, split_app, (split_without "." name Hdot).
      reflexivity.
    + rewrite occurs_app. simpl. now rewrite Hslash, Hext.
  - rewrite split_app, (split_without "/" name Hslash), item_last.
    rewrite (split_without "." name Hdot). reflexivity.
Qed.

(** X8: whatever the path and [at], a name that [get_file_name] returns
    holds neither a slash nor a dot. *)
Theorem get_file_name_plain (file_name : string) (at_ : Z) (name : string) :
  get_file_name file_name at_ = inr name ->
  occurs "/" name = false /\ occurs "." name = false.
Proof.
  unfold get_file_name. intros Hname.
  destruct (item (split "/" file_name) at_) as [e|component] eqn:Hitem;
    [discriminate|].
  assert (Hcomponent : occurs "/" component = false).
  { destruct (Z_lt_le_dec at_ (- Z.of_nat (length (split "/" file_name))))
      as [Hlow|Hlow];
      [rewrite item_out_of_range in Hitem by lia; discriminate|].
    destruct (Z_lt_le_dec at_ (Z.of_nat (length (split "/" file_name))))
      as [Hhigh|Hhigh];
      [|rewrite item_out_of_range in Hitem by lia; discriminate].
    destruct (item_in_range (split "/" file_name) at_) as (x & Hx & Hin);
      [lia|].
    assert (x = component) by congruence. subst x.
    pose proof (split_pieces "/" "/" file_name (or_intror eq_refl)) as Hall.
    exact (proj1 (List.Forall_forall _ _) Hall _ Hin). }
  destruct (split_cons "." component) as (piece & pieces & Hsplit).
  pose proof (split_pieces "." "/" component (or_introl Hcomponent)) as Hs.
  pose proof (split_pieces "." "." component (or_intror eq_refl)) as Hd.
  rewrite Hsplit in Hname, Hs, Hd.
  unfold item in Hname. simpl in Hname. injection Hname as <-.
  inversion Hs; inversion Hd; subst. split; assumption.
Qed.

(** X9: [get_file_name] raises IndexError exactly when [at] is not a
    subscript of the pieces between the slashes, [n] of them for [n - 1]
    slashes: outside [-n <= at < n]; it raises nothing else, and with
    [at] of -1 or 0 it never raises. *)
Theorem get_file_name_index (file_name : string) (at_ : Z) :
  let n := Z.of_nat (S (count_char "/" file_name)) in
  ((- n <= at_ < n)%Z -> exists name, get_file_name file_name at_ = inr name)
  /\ (~ (- n <= at_ < n)%Z -> get_file_name file_name at_ = inl IndexError)
  /\ (exists name, get_file_name file_name (-1) = inr name)
  /\ (exists name, get_file_name file_name 0 = inr name).
Proof.
  intros n. subst n. rewrite <- (length_split "/" file_name).
  assert (Hin : forall i,
             (- Z.of_nat (length (split "/" file_name)) <= i
              < Z.of_nat (length (split "/" file_name)))%Z ->
             exists name, get_file_name file_name i = inr name).
  { intros i Hrange. unfold get_file_name.
    destruct (item_in_range (split "/" file_name) i Hrange)
      as (component & -> & _).
    destruct (split_cons "." component) as (piece & pieces & ->).
    exists piece. reflexivity. }
  assert (Hlen : (0 < length (split "/" file_name))%nat)
    by (rewrite length_split; lia).
  repeat split.
  - apply Hin.
  - intros Hout. unfold get_file_name.
    rewrite item_out_of_range by exact Hout. reflexivity.
  - apply Hin. lia.
  - apply Hin. lia.
Qed.

(** The assertions of [test_get_file_name] in [utils_test.py]. *)
Example test_get_file_name :
  get_file_name "a/b/c/d.text" (-1) = inr "d"
  /\ get_file_name "a/b/c/d.text" (-2) = inr "c"
  /\ get_file_name "a/b/c/d.text" 0 = inr "a".
Proof. repeat split. Qed.

(** ** filter_transform *)

Section FilterTransformFacts.

Context {A B W : Type}.

Implicit Types (data_stream : list A) (condition : A -> W -> bool * W)
  (transform : A -> W -> B * W) (w : W).

Lemma filter_transform_step data_stream condition transform w :
  filter_transform data_stream condition transform w
  = match map_next transform condition data_stream w with
    | (None, w1) => ([], w1)
    | (Some (y, rest), w1) =>
        (y :: fst (filter_transform rest condition transform w1),
         snd (filter_transform rest condition transform w1))
    end.
Proof.
  funelim (filter_transform data_stream condition transform w);
    match goal with H : map_next _ _ _ _ = _ |- _ => rewrite H end;
    reflexivity.
Qed.

Lemma map_next_skip data_stream condition transform w x w1 :
  condition x w = (false, w1) ->
  map_next transform condition (x :: data_stream) w
  = map_next transform condition data_stream w1.
Proof.
  intros Hcond. unfold map_next. simpl. rewrite Hcond. reflexivity.
Qed.

Lemma filter_transform_is_loop data_stream condition transform w :
  filter_transform data_stream condition transform w
  = filter_transform_loop data_stream condition transform w.
Proof.
  revert w. induction data_stream as [|x rest IH]; intros w.
  - rewrite filter_transform_step. reflexivity.
  - simpl. destruct (condition x w) as [b w1] eqn:Hcond. destruct b.
    + rewrite filter_transform_step. unfold map_next. simpl.
      rewrite Hcond. destruct (transform x w1) as [y w2].
      rewrite IH.
      destruct (filter_transform_loop rest condition transform w2).
      reflexivity.
    + rewrite <- IH.
      rewrite (filter_transform_step (x :: rest)).
      rewrite (map_next_skip rest condition transform w x w1 Hcond).
      rewrite <- filter_transform_step. reflexivity.
Qed.

(** X10: consumed to its end, [filter_transform] calls [condition] once
    on every element in source order and [transform] once, right after,
    on each element that passed; the items are the transforms of the
    elements that passed, in source order.  With callables that leave the
    world alone they are [map transform (List.filter condition data_stream)],
    and the items of two streams in a row are the items of the first
    followed by those of the second. *)
Theorem filter_transform_order data_stream condition transform w :
  filter_transform data_stream condition transform w
  = filter_transform_loop data_stream condition transform w
  /\ (forall (p : A -> bool) (f : A -> B) more,
        filter_transform data_stream (fun x w => (p x, w))
                         (fun x w => (f x, w)) w
        = (map f (List.filter p data_stream), w)
        /\ fst (filter_transform (data_stream ++ more) (fun x w => (p x, w))
                                 (fun x w => (f x, w)) w)
           = fst (filter_transform data_stream (fun x w => (p x, w))
                                   (fun x w => (f x, w)) w)
             ++ fst (filter_transform more (fun x w => (p x, w))
                                      (fun x w => (f x, w)) w)).
Proof.
  split; [apply filter_transform_is_loop|].
  intros p f more.
  assert (Hpure : forall ds,
             filter_transform ds (fun x w => (p x, w)) (fun x w => (f x, w)) w
             = (map f (List.filter p ds), w)).
  { intros ds. rewrite filter_transform_is_loop.
    induction ds as [|x rest IH]; simpl; [reflexivity|].
    destruct (p x); simpl; rewrite IH; reflexivity. }
  split; [apply Hpure|].
  rewrite !Hpure. simpl. now rewrite List.filter_app, map_app.
Qed.

End FilterTransformFacts.

(** The assertion of [test_filter_transform] in [utils_test.py]. *)
Example test_filter_transform :
  filter_transform [0; 1; 2; 3; 4; 5; 6; 7; 8; 9]%Z
                   (fun x w => (negb (x mod 2 =? 0)%Z, w))
                   (fun x w => ((x + 1)%Z, w)) tt
  = ([2; 4; 6; 8; 10]%Z, tt).
Proof. vm_compute. reflexivity. Qed.

(** ** date_generator *)

Local Open Scope Z_scope.

Lemma date_add_ok (d days : Z) :
  date_min <= d + days <= date_max -> date_add d days = inr (d + days).
Proof.
  intros [Hlo Hhi]. unfold date_add.
  destruct (Z.leb_spec date_min (d + days)); [|lia].
  destruct (Z.leb_spec (d + days) date_max); [|lia].
  reflexivity.
Qed.

Lemma date_add_overflow (d days : Z) :
  date_max < d + days -> date_add d days = inl OverflowError.
Proof.
  intros Hhi. unfold date_add.
  destruct (Z.leb_spec (d + days) date_max); [lia|].
  now rewrite andb_false_r.
Qed.

(** The loop with a positive step: [m] dates, then the end by return or,
    when the date after the last one is past [date_max], by
    OverflowError. *)
Lemma date_loop_run (td end_date : Z) :
  0 < td -> end_date <= date_max ->
  forall (m : nat) (start_date : Z) (fuel : nat),
    date_min <= start_date ->
    (0 < m)%nat \/ end_date < start_date ->
    ((0 < m)%nat -> start_date + (Z.of_nat m - 1) * td <= end_date) ->
    end_date < start_date + Z.of_nat m * td ->
    (m < fuel)%nat ->
    date_loop fuel start_date end_date td
    = (map (fun k => start_date + Z.of_nat k * td) (seq 0 m),
       if (Nat.eqb m 0 || (start_date + Z.of_nat m * td <=? date_max))%bool
       then Finished else Raised OverflowError).
Proof.
  intros Htd Hend. induction m as [|m IH];
    intros start_date fuel Hmin Hpos Hlast Hnext Hfuel;
    (destruct fuel as [|fuel]; [lia|]); simpl date_loop.
  - destruct (Z.leb_spec start_date end_date); [lia|]. reflexivity.
  - assert (Hle : start_date <= end_date) by nia.
    destruct (Z.leb_spec start_date end_date) as [_|Hgt]; [|lia].
    destruct (Z_le_gt_dec (start_date + td) date_max) as [Hfits|Hover].
    + rewrite date_add_ok by lia.
      rewrite (IH (start_date + td) fuel);
        [|lia|destruct m as [|m]; [right; lia|left; lia]
         |intros Hm; specialize (Hlast ltac:(lia)); nia|lia|lia].
      f_equal.
      * cbn [seq map]. f_equal; [lia|].
        rewrite <- seq_shift, map_map. apply map_ext. intros k. lia.
      * replace (start_date + td + Z.of_nat m * td)
          with (start_date + Z.of_nat (S m) * td) by lia.
        destruct m as [|m]; simpl Nat.eqb; simpl orb; [|reflexivity].
        destruct (Z.leb_spec (start_date + Z.of_nat 1 * td) date_max);
          [reflexivity|lia].
    + rewrite date_add_overflow by lia.
      assert (m = 0%nat) by (destruct m; [reflexivity|nia]). subst m.
      cbn [seq map Nat.eqb orb]. f_equal; [f_equal; lia|].
      destruct (Z.leb_spec (start_date + Z.of_nat 1 * td) date_max); [lia|].
      reflexivity.
Qed.

(** X11: with an interval of at least one day, [date_generator] yields
    the dates of [range(start, stop, interval)], where [stop] is the day
    after [end_date] when [include_end] holds and [end_date] itself
    otherwise: from [start_date] on, [interval] days apart, none after the
    last day wanted.  It then returns, unless the date [interval] days
    after the last one yielded is past [date.max]: then it raises
    OverflowError after the last date. *)
Theorem date_generator_dates (start_date end_date : Z) (include_end : bool)
        (interval : Z) :
  let stop := if include_end then end_date + 1 else end_date in
  let m := (stop - 1 - start_date) / interval + 1 in
  date_min <= start_date ->
  start_date < stop ->
  end_date <= date_max ->
  1 <= interval <= 999999999 ->
  exists dates,
    range start_date stop interval = inr dates
    /\ forall fuel,
        (Z.to_nat m < fuel)%nat ->
        date_generator fuel start_date end_date include_end interval
        = (dates,
           if start_date + m * interval <=? date_max
           then Finished else Raised OverflowError).
Proof.
  intros stop m Hmin Hstop Hmax Hinterval.
  pose proof (Z.mul_div_le (stop - 1 - start_date) interval ltac:(lia)) as Hlo.
  pose proof (Z.mul_succ_div_gt (stop - 1 - start_date) interval ltac:(lia))
    as Hhi.
  pose proof (Z.div_pos (stop - 1 - start_date) interval ltac:(lia)
                ltac:(lia)) as Hdiv.
  fold m in Hlo, Hhi.
  exists (map (fun k => start_date + Z.of_nat k * interval)
              (seq 0 (Z.to_nat m))).
  split.
  - unfold range, range_length.
    destruct (Z.eqb_spec interval 0); [lia|].
    destruct (Z.ltb_spec 0 interval); [|lia].
    destruct (Z.leb_spec stop start_date); [lia|].
    unfold m. replace (stop - start_date - 1) with (stop - 1 - start_date)
      by lia.
    reflexivity.
  - intros fuel Hfuel. unfold date_generator.
    assert (Hchecked :
              (if include_end
               then if start_date <=? end_date then inr end_date
                    else inl AssertionError
               else if start_date <? end_date then date_add end_date (-1)
                    else inl AssertionError) = inr (stop - 1)).
    { subst stop. destruct include_end.
      - destruct (Z.leb_spec start_date end_date); [|lia]. f_equal. lia.
      - destruct (Z.ltb_spec start_date end_date); [|lia].
        unfold date_min in *. rewrite date_add_ok; [f_equal; lia|].
        unfold date_min. lia. }
    rewrite Hchecked. unfold timedelta.
    destruct (Z.leb_spec (-999999999) interval); [|lia].
    destruct (Z.leb_spec interval 999999999); [|lia].
    simpl andb. cbv iota.
    rewrite (date_loop_run interval (stop - 1) ltac:(lia)
               ltac:(subst stop; destruct include_end; lia)
               (Z.to_nat m) start_date fuel Hmin); try lia.
    f_equal.
    replace (Z.to_nat m =? 0)%nat with false
      by (symmetry; apply Nat.eqb_neq; lia).
    rewrite Z2Nat.id by lia. reflexivity.
Qed.

(** X12: [date_generator] raises AssertionError before any date when
    [end_date] is before [start_date], and with [include_end] false also
    when the two are the same day. *)
Theorem date_generator_assertion (start_date end_date : Z)
        (include_end : bool) (interval : Z) (fuel : nat) :
  (if include_end then end_date < start_date else end_date <= start_date) ->
  date_generator fuel start_date end_date include_end interval
  = ([], Raised AssertionError).
Proof.
  intros Hends. unfold date_generator. destruct include_end.
  - destruct (Z.leb_spec start_date end_date); [lia|]. reflexivity.
  - destruct (Z.ltb_spec start_date end_date); [lia|]. reflexivity.
Qed.

Lemma date_loop_not_positive (td end_date : Z) :
  td <= 0 ->
  forall (fuel : nat) (start_date : Z),
    start_date <= end_date ->
    snd (date_loop fuel start_date end_date td) <> Finished
    /\ (td = 0 -> date_min <= start_date <= date_max ->
        date_loop fuel start_date end_date td
        = (repeat start_date fuel, Unfinished)).
Proof.
  intros Htd. induction fuel as [|fuel IH]; intros start_date Hle; simpl.
  - split; [discriminate|reflexivity].
  - destruct (Z.leb_spec start_date end_date) as [_|Hgt]; [|lia].
    split.
    + unfold date_add.
      destruct ((date_min <=? start_date + td)
                && (start_date + td <=? date_max))%bool; [|discriminate].
      destruct (IH (start_date + td) ltac:(lia)) as [Hnot _].
      destruct (date_loop fuel (start_date + td) end_date td). exact Hnot.
    + intros -> Hvalid. rewrite date_add_ok by lia.
      replace (start_date + 0) with start_date by lia.
      destruct (IH start_date Hle) as [_ Hzero].
      rewrite (Hzero eq_refl Hvalid). reflexivity.
Qed.

(** X13: with an interval of zero or less and end points that pass the
    assertions, [date_generator] never returns: however many steps it is
    given, it has not finished or has raised; with an interval of zero it
    yields [start_date] again and again. *)
Theorem date_generator_never_returns (start_date end_date : Z)
        (include_end : bool) (interval : Z) (fuel : nat) :
  interval <= 0 ->
  (if include_end then start_date <= end_date else start_date < end_date) ->
  snd (date_generator fuel start_date end_date include_end interval)
  <> Finished
  /\ (interval = 0 -> date_min <= start_date -> end_date <= date_max ->
      date_generator fuel start_date end_date include_end interval
      = (repeat start_date fuel, Unfinished)).
Proof.
  intros Hinterval Hends. unfold date_generator. destruct include_end.
  - destruct (Z.leb_spec start_date end_date) as [Hle|]; [|lia].
    split.
    + unfold timedelta.
      destruct ((-999999999 <=? interval) && (interval <=? 999999999))%bool;
        [|discriminate].
      apply (date_loop_not_positive interval end_date Hinterval fuel
               start_date Hle).
    + intros -> Hmin Hmax. simpl.
      apply (date_loop_not_positive 0 end_date ltac:(lia) fuel start_date
               Hle); [reflexivity|lia].
  - destruct (Z.ltb_spec start_date end_date) as [Hlt|]; [|lia].
    split.
    + unfold date_add at 1.
      destruct ((date_min <=? end_date + -1)
                && (end_date + -1 <=? date_max))%bool; [|discriminate].
      unfold timedelta.
      destruct ((-999999999 <=? interval) && (interval <=? 999999999))%bool;
        [|discriminate].
      apply (date_loop_not_positive interval (end_date + -1) Hinterval fuel
               start_date). lia.
    + intros -> Hmin Hmax. rewrite date_add_ok by lia. simpl.
      apply (date_loop_not_positive 0 (end_date + -1) ltac:(lia) fuel
               start_date); [lia|reflexivity|lia].
Qed.

(** The assertion of [test_date_generator] in [utils_test.py]: ten days
    from an ordinal [d], every second day. *)
Example test_date_generator :
  date_generator 10 736330 736339 true 2
  = ([736330; 736332; 736334; 736336; 736338], Finished).
Proof. vm_compute. reflexivity. Qed.

(** ** divide_in_chunk: chunk sizes that are not positive, positions *)

Section DivideInChunkMore.

Context {T : Type}.

Implicit Types (docs : list T).

(** X14: with a negative chunk size [divide_in_chunk] yields no chunk at
    all, whatever the sequence, so every element is dropped; with a chunk
    size of zero and a sequence that is not empty it raises the ValueError
    of [range] on a zero step. *)
Theorem divide_in_chunk_not_positive docs :
  (forall chunk_size,
      chunk_size < 0 -> divide_in_chunk docs chunk_size = inr [])
  /\ (docs <> [] ->
      divide_in_chunk docs 0
      = inl (ValueError "range() arg 3 must not be zero")).
Proof.
  split.
  - intros chunk_size Hneg. unfold divide_in_chunk.
    destruct (Z.leb_spec (Z.of_nat (length docs)) chunk_size); [lia|].
    unfold range, range_length.
    destruct (Z.eqb_spec chunk_size 0); [lia|].
    destruct (Z.ltb_spec 0 chunk_size); [lia|].
    destruct (Z.leb_spec 0 (Z.of_nat (length docs))); [|lia].
    reflexivity.
  - intros Hsome. unfold divide_in_chunk.
    assert (0 < length docs)%nat by (destruct docs; [congruence|simpl; lia]).
    destruct (Z.leb_spec (Z.of_nat (length docs)) 0); [lia|].
    reflexivity.
Qed.

(** X15: for a chunk size [n] of at least 1, the element at position [i]
    of the sequence is the element at position [i mod n] of chunk
    [i / n]; that chunk is not empty. *)
Theorem divide_in_chunk_position docs (n i : nat) :
  (1 <= n)%nat ->
  (i < length docs)%nat ->
  exists groups g,
    divide_in_chunk docs (Z.of_nat n) = inr groups
    /\ nth_error groups (i / n) = Some g
    /\ nth_error g (i mod n) = nth_error docs i
    /\ g <> [].
Proof.
  intros Hn Hi.
  assert (Helem : exists x, nth_error docs i = Some x).
  { destruct (nth_error docs i) eqn:Hnth; [eexists; reflexivity|].
    apply nth_error_None in Hnth. lia. }
  destruct Helem as [x Hx].
  assert (Hsome : forall g, nth_error g (i mod n) = nth_error docs i ->
                            g <> []).
  { intros g Hg ->. rewrite Hx in Hg. now destruct (i mod n)%nat. }
  pose proof (Nat.div_mod_eq i n) as Hdivmod.
  pose proof (Nat.mod_upper_bound i n ltac:(lia)) as Hmod.
  destruct (Z.le_gt_cases (Z.of_nat (length docs)) (Z.of_nat n))
    as [Hshort|Hlong].
  - exists [docs], docs. unfold divide_in_chunk.
    destruct (Z.leb_spec (Z.of_nat (length docs)) (Z.of_nat n)); [|lia].
    rewrite Nat.div_small, Nat.mod_small by lia.
    repeat split. apply Hsome. now rewrite Nat.mod_small by lia.
  - rewrite divide_in_chunk_long by lia. rewrite Nat2Z.id.
    eexists _, (firstn n (skipn (i / n * n) docs)).
    split; [reflexivity|].
    assert (Hg : nth_error (firstn n (skipn (i / n * n) docs)) (i mod n)
                 = nth_error docs i).
    { rewrite nth_error_firstn.
      destruct (Nat.ltb_spec (i mod n) n); [|lia].
      rewrite nth_error_skipn. f_equal. lia. }
    split; [|split; [exact Hg|apply Hsome; exact Hg]].
    rewrite nth_error_map, nth_error_seq.
    assert (Hcount : (i / n < Z.to_nat ((Z.of_nat (length docs) - 1)
                                        / Z.of_nat n + 1))%nat).
    { apply Nat2Z.inj_lt. rewrite Nat2Z.inj_div.
      pose proof (Z.div_pos (Z.of_nat (length docs) - 1) (Z.of_nat n)
                    ltac:(lia) ltac:(lia)).
      rewrite Z2Nat.id by lia.
      pose proof (Z.div_le_mono (Z.of_nat i) (Z.of_nat (length docs) - 1)
                    (Z.of_nat n) ltac:(lia) ltac:(lia)).
      lia. }
    destruct (Nat.ltb_spec (i / n)
                (Z.to_nat ((Z.of_nat (length docs) - 1) / Z.of_nat n + 1)));
      [reflexivity|lia].
Qed.

End DivideInChunkMore.

(** ** _same_name_as_constructor *)

Section SameNameFacts.

Context {V : Type}.

Implicit Types (d kwargs kwonly : @dict V) (pairs : list (string * V))
  (k : string) (v : V).

Lemma dict_get_set d k v k' :
  dict_get (dict_set d k v) k'
  = if String.eqb k k' then Some v else dict_get d k'.
Proof.
  induction d as [|[k0 v0] rest IH]; simpl.
  - reflexivity.
  - destruct (String.eqb_spec k0 k) as [->|Hne]; simpl.
    + destruct (String.eqb k k'); reflexivity.
    + rewrite IH. destruct (String.eqb_spec k0 k') as [->|Hne'];
        [|reflexivity].
      destruct (String.eqb_spec k k'); [congruence|reflexivity].
Qed.

Lemma dict_get_update d pairs k :
  dict_get (dict_update d pairs) k
  = or_else (last_value pairs k) (dict_get d k).
Proof.
  unfold dict_update, last_value.
  induction pairs as [|[k0 v0] pairs IH] using rev_ind; simpl.
  - reflexivity.
  - rewrite fold_left_app, rev_app_distr. simpl.
    rewrite dict_get_set, IH.
    destruct (String.eqb k0 k); reflexivity.
Qed.

Lemma find_append {A : Type} (f : A -> bool) (l1 l2 : list A) :
  find f (l1 ++ l2)
  = match find f l1 with
    | Some x => Some x
    | None => find f l2
    end.
Proof.
  induction l1 as [|x l1 IH]; simpl; [reflexivity|].
  destruct (f x); [reflexivity|exact IH].
Qed.

Lemma last_value_absent pairs k :
  ~ In k (map fst pairs) -> last_value pairs k = None.
Proof.
  unfold last_value. intros Habsent.
  destruct (find _ (rev pairs)) as [[k0 v0]|] eqn:Hfind; [|reflexivity].
  apply find_some in Hfind as [Hin Hkey]. simpl in Hkey.
  apply String.eqb_eq in Hkey. subst k0.
  exfalso. apply Habsent. apply in_map_iff.
  exists (k, v0). split; [reflexivity|]. now apply in_rev.
Qed.

Lemma last_value_cons k0 v0 pairs k :
  last_value ((k0, v0) :: pairs) k
  = or_else (last_value pairs k)
            (if String.eqb k0 k then Some v0 else None).
Proof.
  unfold last_value. simpl. rewrite find_append. simpl.
  destruct (find _ (rev pairs)); simpl; [reflexivity|].
  destruct (String.eqb k0 k); reflexivity.
Qed.

Lemma last_value_combine (ks : list string) (vs : list V) (j : nat) k :
  List.NoDup ks ->
  nth_error ks j = Some k ->
  (j < length vs)%nat ->
  last_value (combine ks vs) k = nth_error vs j.
Proof.
  revert vs j. induction ks as [|k0 ks IH]; intros vs j Hnodup Hk Hj.
  - destruct j; discriminate.
  - destruct vs as [|v0 vs]; [simpl in Hj; lia|].
    inversion Hnodup as [|? ? Hfresh Hrest]; subst.
    simpl combine. rewrite last_value_cons.
    destruct j as [|j]; simpl in *.
    + injection Hk as ->.
      rewrite last_value_absent.
      * simpl. now rewrite String.eqb_refl.
      * intros Hin. apply Hfresh.
        apply in_map_iff in Hin as ([k1 v1] & <- & Hin).
        eapply in_combine_l. exact Hin.
    + rewrite (IH vs j Hrest Hk ltac:(lia)).
      destruct (nth_error vs j) eqn:Hnth; [reflexivity|].
      apply nth_error_None in Hnth. lia.
Qed.

(** The dictionary is four layers: what [kwargs] give a key comes first,
    then the keyword-only defaults, then the defaults, then the
    positional arguments. *)
Lemma same_name_get (ins : @FullArgSpec V) (args_ : list V) kwargs :
  dict_get kwargs "ins" = None ->
  varargs ins = None ->
  exists d,
    _same_name_as_constructor ins args_ kwargs = inr d
    /\ forall k,
        dict_get d k
        = or_else (last_value kwargs k)
            (or_else (last_value (default [] (kwonlydefaults ins)) k)
               (or_else
                  (last_value
                     (match defaults ins with
                      | Some ds =>
                          combine
                            (slice_from (args ins) (- Z.of_nat (length ds)))
                            ds
                      | None => []
                      end) k)
                  (last_value
                     (combine
                        (slice (args ins) 1 (Z.of_nat (length args_) + 1))
                        args_) k))).
Proof.
  intros Hins Hnone. unfold _same_name_as_constructor.
  rewrite Hins, Hnone.
  eexists. split; [reflexivity|]. intros k.
  rewrite dict_get_update. f_equal.
  destruct (kwonlydefaults ins) as [kw|]; simpl.
  - rewrite dict_get_update. f_equal.
    destruct (defaults ins) as [ds|]; simpl.
    + rewrite dict_get_update. f_equal.
      rewrite dict_get_update. simpl.
      now destruct (last_value _ k).
    + rewrite dict_get_update. simpl.
      now destruct (last_value _ k).
  - destruct (defaults ins) as [ds|]; simpl.
    + rewrite dict_get_update. unfold last_value at 1. simpl. f_equal.
      rewrite dict_get_update. simpl.
      now destruct (last_value _ k).
    + rewrite dict_get_update. simpl.
      now destruct (last_value _ k).
Qed.

(** X16: called with a keyword argument named [ins],
    [_same_name_as_constructor] raises TypeError; otherwise, with a
    variable argument in the signature, it raises VarArgPresent; otherwise
    it returns a dictionary in which a key has the value [kwargs] give it,
    else its keyword-only default, else the default paired with it from
    the end of the parameter names, else the positional argument paired
    with it from the second parameter name on. *)
Theorem same_name_layers (ins : @FullArgSpec V) (args_ : list V) kwargs :
  (dict_get kwargs "ins" <> None ->
   _same_name_as_constructor ins args_ kwargs
   = inl (TypeError
            "_same_name_as_constructor() got multiple values for argument 'ins'"))
  /\ (dict_get kwargs "ins" = None ->
      varargs ins <> None ->
      _same_name_as_constructor ins args_ kwargs
      = inl (VarArgPresent "variable argument is present."))
  /\ (dict_get kwargs "ins" = None ->
      varargs ins = None ->
      exists d,
        _same_name_as_constructor ins args_ kwargs = inr d
        /\ forall k,
            dict_get d k
            = or_else (last_value kwargs k)
                (or_else (last_value (default [] (kwonlydefaults ins)) k)
                   (or_else
                      (last_value
                         (match defaults ins with
                          | Some ds =>
                              combine
                                (slice_from (args ins)
                                            (- Z.of_nat (length ds)))
                                ds
                          | None => []
                          end) k)
                      (last_value
                         (combine
                            (slice (args ins) 1
                                   (Z.of_nat (length args_) + 1))
                            args_) k)))).
Proof.
  split; [|split].
  - intros Hins. unfold _same_name_as_constructor.
    destruct (dict_get kwargs "ins"); [reflexivity|congruence].
  - intros Hins Hsome. unfold _same_name_as_constructor. rewrite Hins.
    destruct (varargs ins); [reflexivity|congruence].
  - apply same_name_get.
Qed.

Lemma last_value_combine_absent (ks : list string) (vs : list V) k :
  ~ In k ks -> last_value (combine ks vs) k = None.
Proof.
  intros Habsent. apply last_value_absent. intros Hin. apply Habsent.
  apply in_map_iff in Hin as ([k1 v1] & <- & Hin).
  eapply in_combine_l. exact Hin.
Qed.

Lemma nodup_app_disjoint {A : Type} (l1 l2 : list A) :
  List.NoDup (l1 ++ l2) -> forall a, In a l1 -> ~ In a l2.
Proof.
  induction l1 as [|x l1 IH]; simpl; intros Hnodup a Hin; [contradiction|].
  inversion Hnodup as [|? ? Hfresh Hrest]; subst.
  destruct Hin as [->|Hin].
  - intros Hin2. apply Hfresh. apply in_or_app. now right.
  - apply IH; assumption.
Qed.

Lemma positional_names (self_name : string) (names : list string) (n : nat) :
  slice (self_name :: names) 1 (Z.of_nat n + 1) = firstn n names.
Proof.
  replace (Z.of_nat n + 1) with (Z.of_nat (S n)) by lia.
  change 1 with (Z.of_nat 1).
  rewrite (slice_nat (self_name :: names) 1 (S n)) by lia.
  simpl. now rewrite Nat.sub_0_r.
Qed.

Lemma default_names (self_name : string) (req opt : list string)
      (ds : list V) :
  length opt = length ds ->
  combine (slice_from (self_name :: req ++ opt) (- Z.of_nat (length ds))) ds
  = combine opt ds.
Proof.
  intros Hlen. destruct ds as [|v0 ds].
  - now rewrite !combine_nil.
  - f_equal. unfold slice_from, slice, adjust_index.
    cbn [length]. rewrite length_app, Hlen. cbn [length].
    destruct (Z.ltb_spec (- Z.of_nat (S (length ds))) 0) as [_|]; [|lia].
    destruct (Z.ltb_spec (Z.of_nat (S (length req + S (length ds)))) 0);
      [lia|].
    rewrite Z.min_id.
    replace (Z.max 0 (- Z.of_nat (S (length ds))
                      + Z.of_nat (S (length req + S (length ds)))))
      with (Z.of_nat (S (length req))) by lia.
    rewrite Nat2Z.id.
    replace (Z.to_nat (Z.of_nat (S (length req + S (length ds)))
                       - Z.of_nat (S (length req))))
      with (length opt) by (rewrite Hlen; cbn [length]; lia).
    cbn [skipn]. rewrite skipn_app, Nat.sub_diag, skipn_all. simpl.
    apply firstn_all.
Qed.

(** X17: for a signature [(self, required..., optional...)] with one
    default per optional parameter and no two parameters of one name,
    called without keyword arguments, a required parameter has the
    positional argument given for it, and an optional parameter has its
    default, also when a positional argument was given for it; the first
    parameter is not a key. *)
Theorem defaults_override_positional (self_name : string)
        (req opt : list string) (ds given : list V) :
  List.NoDup (self_name :: req ++ opt) ->
  length opt = length ds ->
  (length req <= length given <= length req + length opt)%nat ->
  exists d,
    _same_name_as_constructor
      (mkFullArgSpec (self_name :: req ++ opt) None (Some ds) None) given []
    = inr d
    /\ (forall j k, nth_error req j = Some k ->
                    dict_get d k = nth_error given j)
    /\ (forall j k, nth_error opt j = Some k ->
                    dict_get d k = nth_error ds j)
    /\ dict_get d self_name = None.
Proof.
  intros Hnodup Hlen Hgiven.
  inversion Hnodup as [|? ? Hself Hnames]; subst.
  destruct (same_name_get
              (mkFullArgSpec (self_name :: req ++ opt) None (Some ds) None)
              given [] eq_refl eq_refl) as (d & Hrun & Hget).
  exists d. split; [exact Hrun|].
  assert (Hlayers : forall k,
             dict_get d k
             = or_else (last_value (combine opt ds) k)
                       (last_value (combine (req ++ opt) given) k)).
  { intros k. rewrite Hget. cbn [args defaults kwonlydefaults default].
    rewrite default_names by exact Hlen.
    rewrite positional_names, <- combine_firstn_r. reflexivity. }
  pose proof (List.NoDup_app_remove_l _ _ Hnames) as Hopt.
  pose proof (nodup_app_disjoint req opt Hnames) as Hdisjoint.
  split; [|split].
  - intros j k Hk. rewrite Hlayers.
    assert (Hj : (j < length req)%nat)
      by (apply nth_error_Some; congruence).
    rewrite last_value_combine_absent.
    + simpl. apply (last_value_combine (req ++ opt) given j k Hnames);
        [|lia].
      rewrite nth_error_app1 by exact Hj. exact Hk.
    + apply Hdisjoint. eapply nth_error_In. exact Hk.
  - intros j k Hk. rewrite Hlayers.
    assert (Hj : (j < length opt)%nat)
      by (apply nth_error_Some; congruence).
    rewrite (last_value_combine opt ds j k Hopt Hk) by lia.
    destruct (nth_error ds j) eqn:Hnth; [reflexivity|].
    apply nth_error_None in Hnth. lia.
  - rewrite Hlayers, !last_value_combine_absent; [reflexivity| |].
    + exact Hself.
    + intros Hin. apply Hself. apply in_or_app. now right.
Qed.

End SameNameFacts.

(** * The extra properties at the inputs of the tests *)

Lemma otherwise_never_falls_through_witness :
  apply 0%nat 45 (mkState [otherwise_conditions] [])
  = (inr (-1), mkState [otherwise_conditions] [1; 2; 3; 14]%nat).
Proof.
  exact (proj2 (otherwise_never_falls_through
                  0%nat otherwise_conditions three_branches (always 4 (-1))
                  45 (mkState [otherwise_conditions] [])
                  eq_refl eq_refl eq_refl)
               [1; 2; 3]%nat eq_refl).
Defined.

Lemma apply_pure_is_if_elif_witness :
  apply 0%nat 15 (mkState [pure_conditions] tt)
  = (inr 20, mkState [pure_conditions] tt).
Proof.
  exact (apply_pure_is_if_elif 0%nat pure_conditions pure_branches 15
           (mkState [pure_conditions] tt) eq_refl eq_refl eq_refl).
Defined.

Lemma else_called_never_set_witness :
  never_else (snd (otherwise 0%nat (always 4 (-1))
                             (mkState [open_conditions] []))).
Proof.
  apply (else_called_never_set (mkState [open_conditions] [])).
  unfold never_else. simpl. constructor; [reflexivity|constructor].
Defined.

Lemma get_file_name_basename_witness :
  get_file_name "a/b/c/d.text" (-1) = inr "d"
  /\ get_file_name "a/b/c/d" (-1) = inr "d".
Proof.
  exact (get_file_name_basename "a/b/c" "d" "text" eq_refl eq_refl eq_refl).
Defined.

Lemma get_file_name_plain_witness :
  occurs "/" "c" = false /\ occurs "." "c" = false.
Proof.
  exact (get_file_name_plain "a/b/c.d/e.text" (-2) "c" eq_refl).
Defined.

Lemma get_file_name_index_witness :
  get_file_name "a/b/c/d.text" 4 = inl IndexError
  /\ get_file_name "a/b/c/d.text" (-5) = inl IndexError
  /\ exists name, get_file_name "a/b/c/d.text" (-4) = inr name.
Proof.
  split; [|split].
  - apply (proj1 (proj2 (get_file_name_index "a/b/c/d.text" 4))).
    simpl. lia.
  - apply (proj1 (proj2 (get_file_name_index "a/b/c/d.text" (-5)))).
    simpl. lia.
  - apply (proj1 (get_file_name_index "a/b/c/d.text" (-4))).
    simpl. lia.
Defined.

Lemma date_generator_dates_witness :
  date_generator 6 736330 736339 true 2
  = ([736330; 736332; 736334; 736336; 736338], Finished)
  /\ date_generator 2 3652059 3652059 true 1
     = ([3652059], Raised OverflowError).
Proof.
  split.
  - destruct (date_generator_dates 736330 736339 true 2)
      as (dates & Hrange & Hrun);
      [unfold date_min; lia|lia|unfold date_max; lia|lia|].
    vm_compute in Hrange. injection Hrange as <-.
    exact (Hrun 6%nat ltac:(vm_compute; lia)).
  - destruct (date_generator_dates 3652059 3652059 true 1)
      as (dates & Hrange & Hrun);
      [unfold date_min; lia|lia|unfold date_max; lia|lia|].
    vm_compute in Hrange. injection Hrange as <-.
    exact (Hrun 2%nat ltac:(vm_compute; lia)).
Defined.

Lemma date_generator_assertion_witness :
  date_generator 5 736330 736330 false 1 = ([], Raised AssertionError).
Proof.
  apply (date_generator_assertion 736330 736330 false 1 5). simpl. lia.
Defined.

Lemma date_generator_never_returns_witness :
  date_generator 3 736330 736339 true 0
  = ([736330; 736330; 736330], Unfinished).
Proof.
  apply (proj2 (date_generator_never_returns 736330 736339 true 0 3
                  ltac:(lia) ltac:(simpl; lia))).
  - reflexivity.
  - unfold date_min. lia.
  - unfold date_max. lia.
Defined.

Lemma divide_in_chunk_not_positive_witness :
  divide_in_chunk [1; 2; 3] (-2) = inr []
  /\ divide_in_chunk [1; 2; 3] 0
     = inl (ValueError "range() arg 3 must not be zero").
Proof.
  split.
  - apply (proj1 (divide_in_chunk_not_positive [1; 2; 3]) (-2)). lia.
  - apply (proj2 (divide_in_chunk_not_positive [1; 2; 3])). discriminate.
Defined.

Lemma divide_in_chunk_position_witness :
  exists groups g,
    divide_in_chunk [2; 3; 4; 5; 6; 7; 8; 9; 10; 11] 3 = inr groups
    /\ nth_error groups 2 = Some g
    /\ nth_error g 1 = Some 9
    /\ g <> [].
Proof.
  exact (divide_in_chunk_position [2; 3; 4; 5; 6; 7; 8; 9; 10; 11] 3 7
           ltac:(lia) ltac:(simpl; lia)).
Defined.

(** [Foo(1, 2, p=5)] for the signature above. *)
Example test_constructor :
  _same_name_as_constructor example_signature [1; 2] [("p", 5)]
  = inr [("a", 1); ("b", 2); ("p", 5); ("q", 7)].
Proof. reflexivity. Qed.

Lemma same_name_layers_witness :
  (exists d,
      _same_name_as_constructor example_signature [1; 2] [("p", 5)] = inr d
      /\ dict_get d "p" = Some 5
      /\ dict_get d "q" = Some 7
      /\ dict_get d "b" = Some 2)
  /\ _same_name_as_constructor example_signature [1] [("ins", 5)]
     = inl (TypeError
              "_same_name_as_constructor() got multiple values for argument 'ins'")
  /\ _same_name_as_constructor
       (mkFullArgSpec ["self"; "a"] (Some "rest") None None) [1] []
     = inl (VarArgPresent "variable argument is present.").
Proof.
  split; [|split].
  - destruct (proj2 (proj2 (same_name_layers example_signature [1; 2]
                                             [("p", 5)]))
                    eq_refl eq_refl) as (d & Hrun & Hget).
    exists d. split; [exact Hrun|].
    rewrite !Hget. repeat split.
  - apply (proj1 (same_name_layers example_signature [1] [("ins", 5)])).
    discriminate.
  - apply (proj1 (proj2 (same_name_layers
                           (mkFullArgSpec ["self"; "a"] (Some "rest") None
                                          None) [1] [])));
      [reflexivity|discriminate].
Defined.

Lemma defaults_override_positional_witness :
  exists d,
    _same_name_as_constructor
      (mkFullArgSpec ["self"; "a"; "b"; "p"] None (Some [3]) None)
      [1; 2; 5] []
    = inr d
    /\ dict_get d "a" = Some 1
    /\ dict_get d "p" = Some 3.
Proof.
  destruct (defaults_override_positional "self" ["a"; "b"] ["p"] [3]
              [1; 2; 5]) as (d & Hrun & Hreq & Hopt & _).
  - repeat (constructor; [simpl; intuition discriminate|]). constructor.
  - reflexivity.
  - simpl. lia.
  - exists d. split; [exact Hrun|]. split.
    + exact (Hreq 0%nat "a" eq_refl).
    + exact (Hopt 0%nat "p" eq_refl).
Defined.

(** * Properties of batch *)

Section StreamBatchFacts.

Context {X : Type}.

Implicit Types (source : list X).

Local Open Scope nat_scope.

Lemma batch_step (k : nat) source :
  batch (S k) source
  = match source with
    | [] => []
    | _ :: _ => firstn (S k) source :: batch (S k) (skipn (S k) source)
    end.
Proof.
  destruct source as [|x rest]; simp batch; reflexivity.
Qed.

(** The groups of a source of length [L], for tuples of [S k]: their
    number, what they add up to, and which elements each one holds. *)
Lemma batch_facts (k : nat) :
  forall (L : nat) source,
    length source = L ->
    length (batch (S k) source) = (L + k) / S k
    /\ concat (batch (S k) source) = source
    /\ forall i, i < length (batch (S k) source) ->
                 nth i (batch (S k) source) []
                 = firstn (S k) (skipn (i * S k) source).
Proof.
  induction L as [L IH] using lt_wf_ind. intros source HL.
  rewrite batch_step. destruct source as [|x rest].
  - simpl in HL. subst L. simpl length. rewrite Nat.div_small by lia.
    repeat split. intros i Hi. simpl in Hi. lia.
  - set (tail := skipn (S k) (x :: rest)).
    assert (Htail : length tail = L - S k)
      by (unfold tail; rewrite length_skipn; lia).
    assert (HLpos : 0 < L) by (simpl in HL; lia).
    destruct (IH (L - S k) ltac:(lia) tail Htail)
      as (Hcount & Hconcat & Hnth).
    assert (Hdiv : (L + k) / S k = S ((L - S k + k) / S k)).
    { destruct (Nat.le_gt_cases (S k) L) as [Hge|Hlt].
      - replace (L + k) with (L - S k + k + 1 * S k) by lia.
        rewrite Nat.div_add by lia. lia.
      - replace (L - S k + k) with k by lia.
        rewrite (Nat.div_small k) by lia.
        replace (L + k) with (L - 1 + 1 * S k) by lia.
        rewrite Nat.div_add by lia.
        rewrite Nat.div_small by lia. reflexivity. }
    split; [|split].
    + cbn [length]. rewrite Hcount. symmetry. exact Hdiv.
    + cbn [concat]. rewrite Hconcat. apply firstn_skipn.
    + intros [|i] Hi.
      * reflexivity.
      * cbn [length] in Hi. cbn [nth].
        rewrite Hnth by lia. unfold tail.
        rewrite skipn_skipn. do 2 f_equal. lia.
Qed.

(** C3: for every source of length [L] and every [n] of at least 1,
    [batch n] gives [ceil (L / n)] groups; group [i] holds the [n]
    consecutive elements from position [i * n] on, or what is left of the
    source from there; every group but the last has [n] elements, no
    group is empty or has more than [n], and the groups put end to end
    are the source. *)
Theorem batch_groups (n : nat) source :
  1 <= n ->
  Z.of_nat (length (batch n source))
  = ceil_div (Z.of_nat (length source)) (Z.of_nat n)
  /\ concat (batch n source) = source
  /\ (forall i, i < length (batch n source) ->
                nth i (batch n source) [] = firstn n (skipn (i * n) source))
  /\ (forall i, S i < length (batch n source) ->
                length (nth i (batch n source) []) = n)
  /\ (forall g, In g (batch n source) -> 1 <= length g <= n).
Proof.
  intros Hn. destruct n as [|k]; [lia|].
  destruct (batch_facts k (length source) source eq_refl)
    as (Hcount & Hconcat & Hnth).
  pose proof (Nat.Div0.mul_div_le (length source + k) (S k)) as Hlo.
  pose proof (Nat.mul_succ_div_gt (length source + k) (S k) ltac:(lia))
    as Hhi.
  rewrite <- Hcount in Hlo, Hhi.
  split; [|split; [exact Hconcat|split; [exact Hnth|split]]].
  - rewrite Hcount. unfold ceil_div. rewrite Nat2Z.inj_div.
    f_equal. lia.
  - intros i Hi. rewrite Hnth by lia.
    rewrite length_firstn, length_skipn. nia.
  - intros g Hin. apply (In_nth _ _ []) in Hin as (i & Hi & <-).
    rewrite Hnth by exact Hi.
    rewrite length_firstn, length_skipn. nia.
Qed.

End StreamBatchFacts.

(** The assertion of [test_batch] in [stream_test.py] and the scenario
    [Stream([1,2,3,4,5]).batch(2)] of the specification. *)
Example test_batch :
  batch 3 [0; 1; 2; 3; 4; 5; 6; 7; 8; 9]
  = [[0; 1; 2]; [3; 4; 5]; [6; 7; 8]; [9]]
  /\ batch 2 [1; 2; 3; 4; 5] = [[1; 2]; [3; 4]; [5]].
Proof. split; vm_compute; reflexivity. Qed.

Lemma batch_groups_witness :
  Z.of_nat (length (batch 3 [0; 1; 2; 3; 4; 5; 6; 7; 8; 9])) = 4
  /\ concat (batch 3 [0; 1; 2; 3; 4; 5; 6; 7; 8; 9])
     = [0; 1; 2; 3; 4; 5; 6; 7; 8; 9]
  /\ Z.of_nat (length (batch 1 (@nil Z))) = 0.
Proof.
  destruct (batch_groups 3 [0; 1; 2; 3; 4; 5; 6; 7; 8; 9] ltac:(lia))
    as (Hcount & Hconcat & _).
  destruct (batch_groups 1 (@nil Z) ltac:(lia)) as (Hempty & _).
  split; [exact Hcount|split; [exact Hconcat|exact Hempty]].
Defined.
